(** * ha-web-rtc-player: session negotiation and teardown

    A shallow embedding of [src/components/ha-web-rtc-player.ts].

    The widget is sequencing code over two external systems: the browser's
    peer-connection / media-capture API and the backend data-fetch functions.
    The embedding keeps the widget's own control flow and represents

    - the mutable browser objects (peer connections, media streams, media
      tracks) as three stores indexed by object identity, so that the local
      variable [peerConnection] and the field [_peerConnection] alias;
    - every awaited external call as a field of an oracle [Env] that says
      whether the promise fulfils (and with what) or rejects;
    - an [async] method as a state-passing computation whose result is either
      a value, a thrown error (the promise rejects) or [Pending] (an awaited
      promise that never settles);
    - the order of effects as the list of [Event]s a call produces;
    - calls that overlap as tasks suspended at every [await], which the page
      carries on in any order; a task carried through with nothing in
      between does what the method does
      ([startWebRtc_uninterrupted], [cleanUp_uninterrupted]);
    - the query [_videoEl] as a field holding what the query finds, which
      [rendered] brings up to date after a render. *)

From stdpp Require Import base list strings.
From Stdlib Require Import Bool Lia.

Open Scope string_scope.
Open Scope list_scope.

(** ** JavaScript values used by the widget *)

(** A settled promise. *)
Inductive Outcome (A : Type) : Type :=
| Fulfilled (a : A)
| Rejected (message : option string).
Arguments Fulfilled {A} a.
Arguments Rejected {A} message.

(** [err.message] of a caught value; [err] is typed [any], so the property
    may be absent. *)
Record JsError := { message : option string }.

(** ["text" + x] where [x] may be [undefined]. *)
Definition js_concat (prefix : string) (x : option string) : string :=
  prefix +:+ default "undefined" x.

(** Truthiness of a string: only the empty string is falsy. *)
Definition truthy (s : string) : bool :=
  match s with
  | EmptyString => false
  | String _ _ => true
  end.

(** Truthiness of an optional string property. *)
Definition truthy_opt (o : option string) : bool :=
  match o with
  | Some s => truthy s
  | None => false
  end.

(** ** Browser objects *)

Record RTCIceServer := { urls : list string }.

(** [RTCConfiguration]; [{}] has no [iceServers] property. *)
Record RTCConfiguration := { iceServers : option (list RTCIceServer) }.

Definition empty_configuration : RTCConfiguration := {| iceServers := None |}.

Inductive Direction := sendrecv | recvonly.

Definition TrackId := nat.
Definition StreamId := nat.
Definition PcId := nat.

(** [MediaStreamTrack]: [kind], the [enabled] flag, and whether [stop()] has
    been called. *)
Record MediaStreamTrack := {
  kind : string;
  enabled : bool;
  stopped : bool
}.

(** First argument of [addTransceiver]: a track or a kind. *)
Inductive TrackOrKind :=
| OfTrack (t : TrackId)
| OfKind (k : string).

Record Transceiver := {
  seed : TrackOrKind;
  direction : Direction
}.

Record RTCPeerConnection := {
  configuration : RTCConfiguration;
  dataChannels : list string;
  transceivers : list Transceiver;
  localDescription : option string;
  remoteDescription : option string;
  iceListener : bool;
  (** the ["track"] listener, closed over the stream it feeds *)
  trackListener : option StreamId;
  closed : bool
}.

Definition new_RTCPeerConnection (c : RTCConfiguration) : RTCPeerConnection :=
  {| configuration := c; dataChannels := []; transceivers := [];
     localDescription := None; remoteDescription := None;
     iceListener := false; trackListener := None; closed := false |}.

(** The [<video id="remote-stream">] element. *)
Record HTMLVideoElement := {
  srcObject : option StreamId;
  srcAttr : option string
}.

(** ** Backend data *)

(** Result of [fetchWebRtcConfig]. *)
Record WebRtcConfig := {
  rtc_configuration : option RTCConfiguration;
  create_data_channel : option bool;
  audio_direction : option string
}.

(** Result of [fetchWebRtcSettings]. *)
Record WebRtcSettings := { stun_server : option string }.

Record WebRtcAnswer := { answer : string }.

(** ** Effects, in the order the widget performs them *)

Inductive Event :=
| EvFetchWebRtcConfig (entity : string)
| EvFetchWebRtcSettings
| EvNewPeerConnection (pc : PcId) (c : RTCConfiguration)
| EvCreateDataChannel (pc : PcId) (label : string)
| EvGetMedia (media : string) (video audio : bool)
| EvConsoleWarn (msg : option string)
| EvAddTransceiver (pc : PcId) (arg : option TrackOrKind) (d : Direction)
| EvCreateOffer (pc : PcId)
| EvSetLocalDescription (pc : PcId)
| EvIceListener (pc : PcId)
| EvHandleWebRtcOffer (entity : string) (offer_sdp : string)
| EvNewMediaStream (s : StreamId)
| EvTrackListener (pc : PcId) (s : StreamId)
| EvSetRemoteDescription (pc : PcId) (sdp : string)
| EvRemoteDescriptionApplied (pc : PcId)
| EvStreamAddTrack (s : StreamId) (t : TrackId)
| EvVideoSrcObject (s : StreamId)
| EvListenerError
| EvTrackStop (t : TrackId)
| EvVideoReset
| EvClosePeerConnection (pc : PcId)
| EvCloseWebRtcStream (entity : string).

(** ** The component instance together with the objects it can reach *)

Record Widget := {
  (** properties and fields of [HaWebRtcPlayer] *)
  entityid : string;
  hasUpdated : bool;
  _error : option string;
  _videoEl : option HTMLVideoElement;
  _peerConnection : option PcId;
  _remoteStream : option StreamId;
  _localReturnAudioTrack : option TrackId;
  (** object stores *)
  pcs : list RTCPeerConnection;
  streams : list (list TrackId);
  tracks : list MediaStreamTrack
}.

(** A freshly constructed, never started widget. *)
Definition initial_widget (entity : string) : Widget :=
  {| entityid := entity; hasUpdated := false; _error := None;
     _videoEl := None; _peerConnection := None; _remoteStream := None;
     _localReturnAudioTrack := None;
     pcs := []; streams := []; tracks := [] |}.

(** ** Field updates *)

Definition set_error (e : option string) (w : Widget) : Widget :=
  {| entityid := entityid w; hasUpdated := hasUpdated w; _error := e;
     _videoEl := _videoEl w; _peerConnection := _peerConnection w;
     _remoteStream := _remoteStream w;
     _localReturnAudioTrack := _localReturnAudioTrack w;
     pcs := pcs w; streams := streams w; tracks := tracks w |}.

Definition set_videoEl (v : option HTMLVideoElement) (w : Widget) : Widget :=
  {| entityid := entityid w; hasUpdated := hasUpdated w; _error := _error w;
     _videoEl := v; _peerConnection := _peerConnection w;
     _remoteStream := _remoteStream w;
     _localReturnAudioTrack := _localReturnAudioTrack w;
     pcs := pcs w; streams := streams w; tracks := tracks w |}.

Definition set_peerConnection (p : option PcId) (w : Widget) : Widget :=
  {| entityid := entityid w; hasUpdated := hasUpdated w; _error := _error w;
     _videoEl := _videoEl w; _peerConnection := p;
     _remoteStream := _remoteStream w;
     _localReturnAudioTrack := _localReturnAudioTrack w;
     pcs := pcs w; streams := streams w; tracks := tracks w |}.

Definition set_remoteStream (r : option StreamId) (w : Widget) : Widget :=
  {| entityid := entityid w; hasUpdated := hasUpdated w; _error := _error w;
     _videoEl := _videoEl w; _peerConnection := _peerConnection w;
     _remoteStream := r;
     _localReturnAudioTrack := _localReturnAudioTrack w;
     pcs := pcs w; streams := streams w; tracks := tracks w |}.

Definition set_localReturnAudioTrack (t : option TrackId) (w : Widget)
  : Widget :=
  {| entityid := entityid w; hasUpdated := hasUpdated w; _error := _error w;
     _videoEl := _videoEl w; _peerConnection := _peerConnection w;
     _remoteStream := _remoteStream w;
     _localReturnAudioTrack := t;
     pcs := pcs w; streams := streams w; tracks := tracks w |}.

Definition set_pcs (l : list RTCPeerConnection) (w : Widget) : Widget :=
  {| entityid := entityid w; hasUpdated := hasUpdated w; _error := _error w;
     _videoEl := _videoEl w; _peerConnection := _peerConnection w;
     _remoteStream := _remoteStream w;
     _localReturnAudioTrack := _localReturnAudioTrack w;
     pcs := l; streams := streams w; tracks := tracks w |}.

Definition set_streams (l : list (list TrackId)) (w : Widget) : Widget :=
  {| entityid := entityid w; hasUpdated := hasUpdated w; _error := _error w;
     _videoEl := _videoEl w; _peerConnection := _peerConnection w;
     _remoteStream := _remoteStream w;
     _localReturnAudioTrack := _localReturnAudioTrack w;
     pcs := pcs w; streams := l; tracks := tracks w |}.

Definition set_tracks (l : list MediaStreamTrack) (w : Widget) : Widget :=
  {| entityid := entityid w; hasUpdated := hasUpdated w; _error := _error w;
     _videoEl := _videoEl w; _peerConnection := _peerConnection w;
     _remoteStream := _remoteStream w;
     _localReturnAudioTrack := _localReturnAudioTrack w;
     pcs := pcs w; streams := streams w; tracks := l |}.


Definition set_entityid (e : string) (w : Widget) : Widget :=
  {| entityid := e; hasUpdated := hasUpdated w; _error := _error w;
     _videoEl := _videoEl w; _peerConnection := _peerConnection w;
     _remoteStream := _remoteStream w;
     _localReturnAudioTrack := _localReturnAudioTrack w;
     pcs := pcs w; streams := streams w; tracks := tracks w |}.

Definition pc_add_dataChannel (l : string) (p : RTCPeerConnection) :=
  {| configuration := configuration p; dataChannels := dataChannels p ++ [l];
     transceivers := transceivers p; localDescription := localDescription p;
     remoteDescription := remoteDescription p; iceListener := iceListener p;
     trackListener := trackListener p; closed := closed p |}.

Definition pc_add_transceiver (t : Transceiver) (p : RTCPeerConnection) :=
  {| configuration := configuration p; dataChannels := dataChannels p;
     transceivers := transceivers p ++ [t];
     localDescription := localDescription p;
     remoteDescription := remoteDescription p; iceListener := iceListener p;
     trackListener := trackListener p; closed := closed p |}.

Definition pc_set_localDescription (d : string) (p : RTCPeerConnection) :=
  {| configuration := configuration p; dataChannels := dataChannels p;
     transceivers := transceivers p; localDescription := Some d;
     remoteDescription := remoteDescription p; iceListener := iceListener p;
     trackListener := trackListener p; closed := closed p |}.

Definition pc_set_remoteDescription (d : string) (p : RTCPeerConnection) :=
  {| configuration := configuration p; dataChannels := dataChannels p;
     transceivers := transceivers p; localDescription := localDescription p;
     remoteDescription := Some d; iceListener := iceListener p;
     trackListener := trackListener p; closed := closed p |}.

Definition pc_set_iceListener (p : RTCPeerConnection) :=
  {| configuration := configuration p; dataChannels := dataChannels p;
     transceivers := transceivers p; localDescription := localDescription p;
     remoteDescription := remoteDescription p; iceListener := true;
     trackListener := trackListener p; closed := closed p |}.

Definition pc_set_trackListener (s : StreamId) (p : RTCPeerConnection) :=
  {| configuration := configuration p; dataChannels := dataChannels p;
     transceivers := transceivers p; localDescription := localDescription p;
     remoteDescription := remoteDescription p; iceListener := iceListener p;
     trackListener := Some s; closed := closed p |}.

Definition pc_close (p : RTCPeerConnection) :=
  {| configuration := configuration p; dataChannels := dataChannels p;
     transceivers := transceivers p; localDescription := localDescription p;
     remoteDescription := remoteDescription p; iceListener := iceListener p;
     trackListener := trackListener p; closed := true |}.

Definition track_set_enabled (b : bool) (t : MediaStreamTrack) :=
  {| kind := kind t; enabled := b; stopped := stopped t |}.

Definition track_stop (t : MediaStreamTrack) :=
  {| kind := kind t; enabled := enabled t; stopped := true |}.

(** ** Asynchronous computations *)

(** How a method call ends: it returns (its promise fulfils), it throws (its
    promise rejects), or it stays suspended on a promise that never settles. *)
Inductive Res (A : Type) : Type :=
| Val (a : A)
| Throw (e : JsError)
| Pending.
Arguments Val {A} a.
Arguments Throw {A} e.
Arguments Pending {A}.

(** What a call leaves behind: the state it ends in, its effects in order,
    and how it ended. *)
Record Run (A : Type) : Type := {
  final : Widget;
  events : list Event;
  result : Res A
}.
Arguments final {A} r.
Arguments events {A} r.
Arguments result {A} r.

Definition M (A : Type) : Type := Widget -> Run A.

Definition ret {A} (a : A) : M A :=
  fun w => {| final := w; events := []; result := Val a |}.

(** The effects [e] happened before those of [r]. *)
Definition after {A} (e : list Event) (r : Run A) : Run A :=
  match r with
  | {| final := w; events := e'; result := x |} =>
      {| final := w; events := e ++ e'; result := x |}
  end.

Definition bind {A B} (m : M A) (k : A -> M B) : M B :=
  fun w =>
    match m w with
    | {| final := w'; events := e; result := Val a |} => after e (k a w')
    | {| final := w'; events := e; result := Throw x |} =>
        {| final := w'; events := e; result := Throw x |}
    | {| final := w'; events := e; result := Pending |} =>
        {| final := w'; events := e; result := Pending |}
    end.

Notation "'let*' x := m 'in' k" := (bind m (fun x => k))
  (at level 10, x name, m at level 99, k at level 200,
   format "'[v' 'let*'  x  :=  m  'in' '/' k ']'") : stdpp_scope.
Notation "m >> k" := (bind m (fun _ => k))
  (at level 100, k at level 200, right associativity).

Definition get {A} (f : Widget -> A) : M A :=
  fun w => {| final := w; events := []; result := Val (f w) |}.
Definition modify (f : Widget -> Widget) : M unit :=
  fun w => {| final := f w; events := []; result := Val tt |}.
Definition throw {A} (e : JsError) : M A :=
  fun w => {| final := w; events := []; result := Throw e |}.
Definition never {A} : M A :=
  fun w => {| final := w; events := []; result := Pending |}.
Definition emit (e : Event) : M unit :=
  fun w => {| final := w; events := [e]; result := Val tt |}.

(** [await p] for a promise that settles with [o]. *)
Definition await {A} (o : Outcome A) : M A :=
  match o with
  | Fulfilled a => ret a
  | Rejected m => throw {| message := m |}
  end.

(** [try { m } catch (err) { ... }]: the thrown value is handed to the
    caller as [inl err]. *)
Definition attempt {A} (m : M A) : M (JsError + A) :=
  fun w =>
    match m w with
    | {| final := w'; events := e; result := Val a |} =>
        {| final := w'; events := e; result := Val (inr a) |}
    | {| final := w'; events := e; result := Throw x |} =>
        {| final := w'; events := e; result := Val (inl x) |}
    | {| final := w'; events := e; result := Pending |} =>
        {| final := w'; events := e; result := Pending |}
    end.

Fixpoint for_each {A} (l : list A) (f : A -> M unit) : M unit :=
  match l with
  | [] => ret tt
  | x :: l' => f x >> for_each l' f
  end.

(** A call whose promise is dropped: the caller goes on whatever the
    outcome. *)
Definition not_awaited (m : M unit) : M unit :=
  fun w =>
    match m w with
    | {| final := w'; events := e; result := _ |} =>
        {| final := w'; events := e; result := Val tt |}
    end.

(** ** The environment of one call *)

(** What the collaborators answer.  The backend functions ([../data/camera],
    [../data/rtsp_to_webrtc], [../common/config/is_component_loaded]) and the
    browser are outside this file; their answers are taken as given. *)
Record Env := {
  fetchWebRtcConfig : string -> Outcome (option WebRtcConfig);
  isComponentLoaded : string -> bool;
  fetchWebRtcSettings : Outcome (option WebRtcSettings);
  (** is [navigator.mediaDevices] defined *)
  mediaDevices : bool;
  getUserMedia : Outcome (list MediaStreamTrack);
  getDisplayMedia : Outcome (list MediaStreamTrack);
  (** [sdp] of the offer made by [createOffer] *)
  createOffer : Outcome string;
  setLocalDescription : Outcome unit;
  (** the ["icecandidate"] events delivered to the listener, in order:
      [Some c] carries a candidate whose [candidate] string is [c], [None]
      has [event.candidate === null] *)
  icecandidate : list (option string);
  handleWebRtcOffer : string -> string -> Outcome WebRtcAnswer;
  (** on success, the tracks announced by ["track"] events while the remote
      description is applied *)
  setRemoteDescription : Outcome (list MediaStreamTrack);
  closeWebRtcStream : string -> Outcome unit
}.

(** ** Browser operations on the stores *)

Definition crlf : string :=
  String (Ascii.ascii_of_nat 13) (String (Ascii.ascii_of_nat 10) EmptyString).

Definition alloc_pc (c : RTCConfiguration) : M PcId :=
  let* id := get (fun w => length (pcs w)) in
  modify (fun w => set_pcs (pcs w ++ [new_RTCPeerConnection c]) w) >>
  emit (EvNewPeerConnection id c) >>
  ret id.

Definition update_pc (id : PcId) (f : RTCPeerConnection -> RTCPeerConnection)
  : M unit :=
  modify (fun w => set_pcs (alter f id (pcs w)) w).

Definition alloc_track (t : MediaStreamTrack) : M TrackId :=
  let* id := get (fun w => length (tracks w)) in
  modify (fun w => set_tracks (tracks w ++ [t]) w) >>
  ret id.

(** The tracks of a stream the browser has just produced become objects
    of their own, in order. *)
Definition alloc_tracks (l : list MediaStreamTrack) : M (list TrackId) :=
  let* first := get (fun w => length (tracks w)) in
  modify (fun w => set_tracks (tracks w ++ l) w) >>
  ret (seq first (length l)).

(** [new MediaStream()] *)
Definition alloc_stream : M StreamId :=
  let* id := get (fun w => length (streams w)) in
  modify (fun w => set_streams (streams w ++ [[]]) w) >>
  emit (EvNewMediaStream id) >>
  ret id.

(** [track.stop()] *)
Definition stop_track (t : TrackId) : M unit :=
  emit (EvTrackStop t) >>
  modify (fun w => set_tracks (alter track_stop t (tracks w)) w).

(** [peerConnection.close()] *)
Definition close_pc (id : PcId) : M unit :=
  emit (EvClosePeerConnection id) >>
  update_pc id pc_close.

Definition legal_kind (k : string) : bool :=
  String.eqb k "audio" || String.eqb k "video".

(** [peerConnection.addTransceiver(trackOrKind, {direction})].  The argument
    is a [MediaStreamTrack] or a kind string; [undefined] is neither a track
    nor a legal kind, and the call throws a [TypeError]. *)
Definition addTransceiver (id : PcId) (arg : option TrackOrKind)
  (d : Direction) : M unit :=
  emit (EvAddTransceiver id arg d) >>
  match arg with
  | None => throw {| message := Some "TypeError" |}
  | Some (OfKind k) =>
      if legal_kind k
      then update_pc id (pc_add_transceiver {| seed := OfKind k; direction := d |})
      else throw {| message := Some "TypeError" |}
  | Some (OfTrack t) =>
      update_pc id (pc_add_transceiver {| seed := OfTrack t; direction := d |})
  end.

(** ** Methods of [HaWebRtcPlayer] *)

Record MediaStreamConstraints := { video : bool; audio : bool }.

(** [getMediaTracks(media, constraints)] *)
Definition getMediaTracks (env : Env) (media : string)
  (constraints : MediaStreamConstraints) : M (list TrackId) :=
  let* r := attempt
    (if mediaDevices env then
       emit (EvGetMedia media (video constraints) (audio constraints)) >>
       let* stream :=
         await (if String.eqb media "user"
                then getUserMedia env else getDisplayMedia env) in
       alloc_tracks stream
     else throw {| message := Some "TypeError" |}) in
  match r with
  | inr ids => ret ids
  | inl e => emit (EvConsoleWarn (message e)) >> ret []
  end.

(** [_fetchPeerConfiguration()] *)
Definition _fetchPeerConfiguration (env : Env) : M RTCConfiguration :=
  if negb (isComponentLoaded env "rtsp_to_webrtc") then ret empty_configuration
  else
    emit EvFetchWebRtcSettings >>
    let* settings := await (fetchWebRtcSettings env) in
    match settings with
    | None => ret empty_configuration
    | Some st =>
        if negb (truthy_opt (stun_server st)) then ret empty_configuration
        else ret {| iceServers :=
                      Some [ {| urls := [js_concat "stun:" (stun_server st)] |} ] |}
    end.

(** The ["icecandidate"] listener run over the events it receives: an event
    with a candidate appends one line to [candidates], the first event
    without one calls [resolve()] and gives what was collected; if no such
    event comes the promise is never resolved. *)
Fixpoint gather (events : list (option string)) (candidates : string)
  : option string :=
  match events with
  | [] => None
  | None :: _ => Some candidates
  | Some c :: rest => gather rest (candidates +:+ "a=" +:+ c +:+ crlf)
  end.

(** [await iceResolver], giving [candidates] as it stands when the wait
    ends. *)
Definition iceResolver (events : list (option string)) : M string :=
  match gather events "" with
  | Some candidates => ret candidates
  | None => never
  end.

(** Body of the ["track"] listener, for the stream it closed over. *)
Definition on_track (remoteStream : StreamId) (track : TrackId) : M unit :=
  modify (fun w =>
    set_streams (alter (fun l => l ++ [track]) remoteStream (streams w)) w) >>
  emit (EvStreamAddTrack remoteStream track) >>
  let* v := get _videoEl in
  match v with
  | Some el =>
      modify (set_videoEl
                (Some {| srcObject := Some remoteStream; srcAttr := srcAttr el |})) >>
      emit (EvVideoSrcObject remoteStream)
  | None => emit EvListenerError
  end.

(** The browser announces one incoming track on a peer connection: the
    listener registered on it, if any, runs. *)
Definition fire_track (pc : PcId) (t : MediaStreamTrack) : M unit :=
  let* track := alloc_track t in
  let* listener := get (fun w => pcs w !! pc ≫= trackListener) in
  match listener with
  | Some remoteStream => on_track remoteStream track
  | None => ret tt
  end.

(** [await peerConnection.setRemoteDescription(remoteDesc)]: when the
    description is accepted it is installed, the tracks it announces are
    fired, and the promise fulfils; otherwise the promise rejects and no
    track is fired. *)
Definition do_setRemoteDescription (env : Env) (pc : PcId) (sdp : string)
  : M unit :=
  emit (EvSetRemoteDescription pc sdp) >>
  let* incoming := await (setRemoteDescription env) in
  update_pc pc (pc_set_remoteDescription sdp) >>
  emit (EvRemoteDescriptionApplied pc) >>
  for_each incoming (fire_track pc).

Definition wants (o : option bool) : bool :=
  match o with Some true => true | _ => false end.

Definition is_sendrecv (o : option string) : bool :=
  match o with Some d => String.eqb d "sendrecv" | None => false end.

(** [_startWebRtc()], lines 121-160: configuration resolution and transport
    setup.  Gives the new peer connection. *)
Definition setup_transport (env : Env) : M PcId :=
  modify (set_error None) >>
  let* entity := get entityid in
  emit (EvFetchWebRtcConfig entity) >>
  let* web_rtc_config := await (fetchWebRtcConfig env entity) in
  let* peer_configuration :=
    match web_rtc_config ≫= rtc_configuration with
    | Some c => ret c
    | None => _fetchPeerConfiguration env
    end in
  let* peerConnection := alloc_pc peer_configuration in
  (if wants (web_rtc_config ≫= create_data_channel) then
     emit (EvCreateDataChannel peerConnection "dataSendChannel") >>
     update_pc peerConnection (pc_add_dataChannel "dataSendChannel")
   else ret tt) >>
  (if is_sendrecv (web_rtc_config ≫= audio_direction) && mediaDevices env then
     let* captured :=
       getMediaTracks env "user" {| video := false; audio := true |} in
     match captured with
     | t0 :: _ =>
         modify (set_localReturnAudioTrack (Some t0)) >>
         modify (fun w =>
           set_tracks (alter (track_set_enabled false) t0 (tracks w)) w)
     | [] => ret tt
     end >>
     let* local := get _localReturnAudioTrack in
     addTransceiver peerConnection (OfTrack <$> local) sendrecv
   else addTransceiver peerConnection (Some (OfKind "audio")) recvonly) >>
  addTransceiver peerConnection (Some (OfKind "video")) recvonly >>
  ret peerConnection.

(** [_startWebRtc()], lines 161-180: offer construction.  Gives
    [offer_sdp]. *)
Definition build_offer (env : Env) (peerConnection : PcId) : M string :=
  emit (EvCreateOffer peerConnection) >>
  let* offer := await (createOffer env) in
  emit (EvSetLocalDescription peerConnection) >>
  await (setLocalDescription env) >>
  update_pc peerConnection (pc_set_localDescription offer) >>
  emit (EvIceListener peerConnection) >>
  update_pc peerConnection pc_set_iceListener >>
  let* candidates := iceResolver (icecandidate env) in
  ret (offer +:+ candidates).

(** [_startWebRtc()], lines 182-216: signaling exchange and stream
    attachment. *)
Definition exchange (env : Env) (peerConnection : PcId) (offer_sdp : string)
  : M unit :=
  let* entity := get entityid in
  let* webRtcAnswer := attempt
    (emit (EvHandleWebRtcOffer entity offer_sdp) >>
     await (handleWebRtcOffer env entity offer_sdp)) in
  match webRtcAnswer with
  | inl err =>
      modify (set_error
        (Some (js_concat "Failed to start WebRTC stream: " (message err)))) >>
      close_pc peerConnection
  | inr webRtcAnswer =>
      let* remoteStream := alloc_stream in
      emit (EvTrackListener peerConnection remoteStream) >>
      update_pc peerConnection (pc_set_trackListener remoteStream) >>
      modify (set_remoteStream (Some remoteStream)) >>
      let* applied := attempt
        (do_setRemoteDescription env peerConnection (answer webRtcAnswer)) in
      match applied with
      | inl err =>
          modify (set_error
            (Some (js_concat "Failed to connect WebRTC stream: " (message err)))) >>
          close_pc peerConnection
      | inr _ => modify (set_peerConnection (Some peerConnection))
      end
  end.

(** [_startWebRtc()] *)
Definition _startWebRtc (env : Env) : M unit :=
  let* peerConnection := setup_transport env in
  let* offer_sdp := build_offer env peerConnection in
  exchange env peerConnection offer_sdp.

(** [_cleanUp()] *)
Definition _cleanUp (env : Env) : M unit :=
  let* remote := get _remoteStream in
  match remote with
  | Some s =>
      let* ts := get (fun w => default [] (streams w !! s)) in
      for_each ts stop_track >>
      modify (set_remoteStream None)
  | None => ret tt
  end >>
  let* local := get _localReturnAudioTrack in
  match local with
  | Some t => stop_track t
  | None => ret tt
  end >>
  let* v := get _videoEl in
  match v with
  | Some el =>
      modify (set_videoEl
                (Some {| srcObject := srcObject el; srcAttr := None |})) >>
      emit EvVideoReset
  | None => ret tt
  end >>
  let* pc := get _peerConnection in
  match pc with
  | Some id =>
      close_pc id >>
      modify (set_peerConnection None) >>
      let* entity := get entityid in
      emit (EvCloseWebRtcStream entity) >>
      await (closeWebRtcStream env entity)
  | None => ret tt
  end.

(** [toggleMic()] *)
Definition toggleMic : M unit :=
  let* local := get _localReturnAudioTrack in
  match local with
  | Some t =>
      modify (fun w =>
        set_tracks
          (alter (fun tr => track_set_enabled (negb (enabled tr)) tr) t (tracks w))
          w)
  | None => throw {| message := Some "TypeError" |}
  end.

(** [connectedCallback()] *)
Definition connectedCallback (env : Env) : M unit :=
  let* updated_once := get hasUpdated in
  if updated_once then not_awaited (_startWebRtc env) else ret tt.

(** [disconnectedCallback()] *)
Definition disconnectedCallback (env : Env) : M unit :=
  not_awaited (_cleanUp env).

Definition has (changedProperties : list string) (name : string) : bool :=
  existsb (String.eqb name) changedProperties.

(** [updated(changedProperties)] *)
Definition updated (env : Env) (changedProperties : list string) : M unit :=
  if negb (has changedProperties "entityid") then ret tt
  else
    let* v := get _videoEl in
    match v with
    | None => ret tt
    | Some _ => not_awaited (_startWebRtc env)
    end.

(** ** What [render()] shows *)

Inductive Icon := mdiMicrophone | mdiMicrophoneOff.

Record MicControl := { icon : Icon; label : string }.

Inductive Rendered :=
| Alert (text : string)
| VideoWith (mic : option MicControl).

Definition mic_html (w : Widget) : option MicControl :=
  match _localReturnAudioTrack w with
  | None => None
  | Some t =>
      let on := default false (enabled <$> tracks w !! t) in
      Some {| icon := if on then mdiMicrophone else mdiMicrophoneOff;
              label := if on then "Turn off mic" else "Turn on mic" |}
  end.

Definition render (w : Widget) : Rendered :=
  if truthy_opt (_error w) then Alert (default "" (_error w))
  else VideoWith (mic_html w).

(** ** Suspension at [await] *)

(** An [async] method runs until its first [await] and hands control back
    to its caller; what is left of it goes on later, one stretch at a time,
    with whatever else happened to the widget in between.  A [Task] is what
    is left of a call: nothing, or the stretch that runs when the awaited
    promise has settled, which ends in a task again. *)
#[warnings="-register-all"]
Inductive Task : Type :=
| Returned
| Awaiting (resume : Widget -> Run Task).

(** [await]: the rest of the method, [k], runs at a later turn. *)
Definition suspend (k : M Task) : M Task := ret (Awaiting k).

(** A task carried through with nothing happening in between. *)
Fixpoint complete (t : Task) (w : Widget) {struct t} : Run unit :=
  match t with
  | Returned => {| final := w; events := []; result := Val tt |}
  | Awaiting k =>
      match k w with
      | {| final := w'; events := e; result := Val t' |} =>
          after e (complete t' w')
      | {| final := w'; events := e; result := Throw x |} =>
          {| final := w'; events := e; result := Throw x |}
      | {| final := w'; events := e; result := Pending |} =>
          {| final := w'; events := e; result := Pending |}
      end
  end.

(** A stretch and then the rest of its call, with nothing happening in
    between. *)
Definition through (r : Run Task) : Run unit :=
  match r with
  | {| final := w'; events := e; result := Val t |} =>
      after e (complete t w')
  | {| final := w'; events := e; result := Throw x |} =>
      {| final := w'; events := e; result := Throw x |}
  | {| final := w'; events := e; result := Pending |} =>
      {| final := w'; events := e; result := Pending |}
  end.

(** A call carried through with nothing happening in between. *)
Definition uninterrupted (m : M Task) : M unit := fun w => through (m w).

(** [getMediaTracks(media, constraints)], suspending at line 222/223; [k]
    is what the caller does with the returned tracks. *)
Definition getMediaTracks_async (env : Env) (media : string)
  (constraints : MediaStreamConstraints) (k : list TrackId -> M Task)
  : M Task :=
  if mediaDevices env then
    emit (EvGetMedia media (video constraints) (audio constraints)) >>
    suspend
      match (if String.eqb media "user"
             then getUserMedia env else getDisplayMedia env) with
      | Fulfilled stream => let* ids := alloc_tracks stream in k ids
      | Rejected e => emit (EvConsoleWarn e) >> k []
      end
  else emit (EvConsoleWarn (Some "TypeError")) >> k [].

(** [_fetchPeerConfiguration()], suspending at line 236. *)
Definition _fetchPeerConfiguration_async (env : Env)
  (k : RTCConfiguration -> M Task) : M Task :=
  if negb (isComponentLoaded env "rtsp_to_webrtc") then k empty_configuration
  else
    emit EvFetchWebRtcSettings >>
    suspend
      (let* settings := await (fetchWebRtcSettings env) in
       match settings with
       | None => k empty_configuration
       | Some st =>
           if negb (truthy_opt (stun_server st)) then k empty_configuration
           else k {| iceServers :=
                       Some [ {| urls := [js_concat "stun:" (stun_server st)] |} ] |}
       end).

(** [_startWebRtc()] from line 209 on: the answer of [setRemoteDescription]
    has arrived. *)
Definition attach_async (env : Env) (peerConnection : PcId) (sdp : string)
  : M Task :=
  match setRemoteDescription env with
  | Rejected e =>
      modify (set_error
        (Some (js_concat "Failed to connect WebRTC stream: " e))) >>
      close_pc peerConnection >>
      ret Returned
  | Fulfilled incoming =>
      update_pc peerConnection (pc_set_remoteDescription sdp) >>
      emit (EvRemoteDescriptionApplied peerConnection) >>
      for_each incoming (fire_track peerConnection) >>
      suspend
        (modify (set_peerConnection (Some peerConnection)) >>
         ret Returned)
  end.

(** [_startWebRtc()] from line 184 on: the answer of [handleWebRtcOffer]
    to the offer sent for [entity] has arrived. *)
Definition signal_async (env : Env) (peerConnection : PcId)
  (entity offer_sdp : string) : M Task :=
  match handleWebRtcOffer env entity offer_sdp with
  | Rejected e =>
      modify (set_error
        (Some (js_concat "Failed to start WebRTC stream: " e))) >>
      close_pc peerConnection >>
      ret Returned
  | Fulfilled webRtcAnswer =>
      let* remoteStream := alloc_stream in
      emit (EvTrackListener peerConnection remoteStream) >>
      update_pc peerConnection (pc_set_trackListener remoteStream) >>
      modify (set_remoteStream (Some remoteStream)) >>
      emit (EvSetRemoteDescription peerConnection (answer webRtcAnswer)) >>
      suspend (attach_async env peerConnection (answer webRtcAnswer))
  end.

(** [_startWebRtc()], lines 161-184: from the offer to its submission. *)
Definition offer_async (env : Env) (peerConnection : PcId) : M Task :=
  emit (EvCreateOffer peerConnection) >>
  suspend
    (let* offer := await (createOffer env) in
     emit (EvSetLocalDescription peerConnection) >>
     suspend
       (await (setLocalDescription env) >>
        update_pc peerConnection (pc_set_localDescription offer) >>
        emit (EvIceListener peerConnection) >>
        update_pc peerConnection pc_set_iceListener >>
        suspend
          (let* candidates := iceResolver (icecandidate env) in
           let* entity := get entityid in
           emit (EvHandleWebRtcOffer entity (offer +:+ candidates)) >>
           suspend
             (signal_async env peerConnection entity (offer +:+ candidates))))).

(** [_startWebRtc()], lines 130-160: the peer connection and its
    transceivers. *)
Definition connection_async (env : Env) (web_rtc_config : option WebRtcConfig)
  (peer_configuration : RTCConfiguration) : M Task :=
  let* peerConnection := alloc_pc peer_configuration in
  (if wants (web_rtc_config ≫= create_data_channel) then
     emit (EvCreateDataChannel peerConnection "dataSendChannel") >>
     update_pc peerConnection (pc_add_dataChannel "dataSendChannel")
   else ret tt) >>
  let video_and_offer : M Task :=
    addTransceiver peerConnection (Some (OfKind "video")) recvonly >>
    offer_async env peerConnection in
  if is_sendrecv (web_rtc_config ≫= audio_direction) && mediaDevices env then
    getMediaTracks_async env "user" {| video := false; audio := true |}
      (fun captured =>
         suspend
           (match captured with
            | t0 :: _ =>
                modify (set_localReturnAudioTrack (Some t0)) >>
                modify (fun w =>
                  set_tracks
                    (alter (track_set_enabled false) t0 (tracks w)) w)
            | [] => ret tt
            end >>
            let* local := get _localReturnAudioTrack in
            addTransceiver peerConnection (OfTrack <$> local) sendrecv >>
            video_and_offer))
  else
    addTransceiver peerConnection (Some (OfKind "audio")) recvonly >>
    video_and_offer.

(** [_startWebRtc()], with a suspension at every [await]: lines 124, 128,
    145, 166, 167, 179, 184 and 209. *)
Definition _startWebRtc_async (env : Env) : M Task :=
  modify (set_error None) >>
  let* entity := get entityid in
  emit (EvFetchWebRtcConfig entity) >>
  suspend
    (let* web_rtc_config := await (fetchWebRtcConfig env entity) in
     match web_rtc_config ≫= rtc_configuration with
     | Some c => connection_async env web_rtc_config c
     | None =>
         _fetchPeerConfiguration_async env
           (fun c => suspend (connection_async env web_rtc_config c))
     end).

(** [_cleanUp()], with its suspension at line 266. *)
Definition _cleanUp_async (env : Env) : M Task :=
  let* remote := get _remoteStream in
  match remote with
  | Some s =>
      let* ts := get (fun w => default [] (streams w !! s)) in
      for_each ts stop_track >>
      modify (set_remoteStream None)
  | None => ret tt
  end >>
  let* local := get _localReturnAudioTrack in
  match local with
  | Some t => stop_track t
  | None => ret tt
  end >>
  let* v := get _videoEl in
  match v with
  | Some el =>
      modify (set_videoEl
                (Some {| srcObject := srcObject el; srcAttr := None |})) >>
      emit EvVideoReset
  | None => ret tt
  end >>
  let* pc := get _peerConnection in
  match pc with
  | Some id =>
      close_pc id >>
      modify (set_peerConnection None) >>
      let* entity := get entityid in
      emit (EvCloseWebRtcStream entity) >>
      suspend (await (closeWebRtcStream env entity) >> ret Returned)
  | None => ret Returned
  end.

(** The lifecycle hooks do not await the method they call (lines 101, 107
    and 117): the hook returns when the method reaches its first [await],
    and what is left of the method is the task. *)
Definition connectedCallback_async (env : Env) : M Task :=
  let* updated_once := get hasUpdated in
  if updated_once then _startWebRtc_async env else ret Returned.

Definition disconnectedCallback_async (env : Env) : M Task :=
  _cleanUp_async env.

Definition updated_async (env : Env) (changedProperties : list string)
  : M Task :=
  if negb (has changedProperties "entityid") then ret Returned
  else
    let* v := get _videoEl in
    match v with
    | None => ret Returned
    | Some _ => _startWebRtc_async env
    end.

(** ** The widget on its page *)

(** [_videoEl] is a query for the element with id [remote-stream] (line
    52): after a render it finds the video element exactly when [render()]
    produced one, and an element that was taken out of the page is not
    the one that is put in later. *)
Definition new_video : HTMLVideoElement :=
  {| srcObject := None; srcAttr := None |}.

Definition rendered (w : Widget) : Widget :=
  set_videoEl
    match render w with
    | Alert _ => None
    | VideoWith _ => Some (default new_video (_videoEl w))
    end w.

(** What can happen to the widget: the page calls one of its hooks, a
    suspended call goes on, or the page or the browser changes the state
    the widget can reach. *)
Inductive Action :=
| Connected (env : Env)
| Disconnected (env : Env)
| Updated (env : Env) (changedProperties : list string)
| Resume (i : nat)
| Host (h : Widget -> Widget).

Record Page := {
  widget : Widget;
  suspended : list (Widget -> Run Task);
  trace : list Event
}.

(** A stretch of a call has run: its effects are appended to the trace,
    and what is left of the call, if anything, waits with the others. *)
Definition settle (r : Run Task) (others : list (Widget -> Run Task))
  (before : list Event) : Page :=
  {| widget := final r;
     suspended := match result r with
                  | Val (Awaiting k) => others ++ [k]
                  | _ => others
                  end;
     trace := before ++ events r |}.

Definition step (x : Page) (a : Action) : Page :=
  match a with
  | Connected env =>
      settle (connectedCallback_async env (widget x)) (suspended x) (trace x)
  | Disconnected env =>
      settle (disconnectedCallback_async env (widget x)) (suspended x) (trace x)
  | Updated env changed =>
      settle (updated_async env changed (widget x)) (suspended x) (trace x)
  | Resume i =>
      match suspended x !! i with
      | Some k => settle (k (widget x)) (delete i (suspended x)) (trace x)
      | None => x
      end
  | Host h =>
      {| widget := h (widget x); suspended := suspended x; trace := trace x |}
  end.

Definition exec (acts : list Action) (x : Page) : Page := foldl step x acts.

(** The environments of the negotiations a schedule may start. *)
Definition runs (acts : list Action) : list Env :=
  omap (fun a => match a with
                 | Connected env | Updated env _ => Some env
                 | _ => None
                 end) acts.

(** The page leaves the private field [_peerConnection] alone. *)
Definition keeps_recorded (a : Action) : Prop :=
  match a with
  | Host h => forall w, _peerConnection (h w) = _peerConnection w
  | _ => True
  end.

(** A negotiation with these outcomes can get past both failure points:
    an offer is made, gathering ends, the backend answers the offer that
    is then sent for some entity, and the answer is accepted. *)
Definition succeeds (env : Env) : Prop :=
  exists offer candidates entity webRtcAnswer incoming,
    createOffer env = Fulfilled offer /\
    gather (icecandidate env) "" = Some candidates /\
    handleWebRtcOffer env entity (offer +:+ candidates)
    = Fulfilled webRtcAnswer /\
    setRemoteDescription env = Fulfilled incoming.

Definition is_release (e : Event) : bool :=
  match e with EvCloseWebRtcStream _ => true | _ => false end.

Definition no_release (l : list Event) : bool :=
  forallb (fun e => negb (is_release e)) l.
Arguments no_release : simpl never.

(** A task that, whatever happened since it was suspended, sends no
    release request, and changes the recorded peer connection only if [S]
    holds. *)
Fixpoint orderly (S : Prop) (t : Task) {struct t} : Prop :=
  match t with
  | Returned => True
  | Awaiting k =>
      forall w,
        match k w with
        | {| final := w'; events := e; result := res |} =>
            (_peerConnection w' = _peerConnection w \/ S) /\
            no_release e = true /\
            match res with
            | Val t' => orderly S t'
            | _ => True
            end
        end
  end.

(** A step of a method that leaves the recorded peer connection alone and
    sends no release request. *)
Definition harmless {A} (m : M A) : Prop :=
  forall w,
    _peerConnection (final (m w)) = _peerConnection w /\
    no_release (events (m w)) = true.

(** What holds of a page on which every negotiation that records a peer
    connection satisfies [S]. *)
Definition page_ok (S : Prop) (x : Page) : Prop :=
  (is_Some (_peerConnection (widget x)) -> S) /\
  Forall (fun k => orderly S (Awaiting k)) (suspended x).

(** ** Vocabulary of the statements *)

(** The text appended to the offer for a list of candidates. *)
Fixpoint candidate_lines (candidates : list string) : string :=
  match candidates with
  | [] => ""
  | c :: rest => "a=" +:+ c +:+ crlf +:+ candidate_lines rest
  end.

(** Effects of configuration resolution and transport setup. *)
Definition setup_event (e : Event) : bool :=
  match e with
  | EvFetchWebRtcConfig _ | EvFetchWebRtcSettings | EvNewPeerConnection _ _
  | EvCreateDataChannel _ _ | EvGetMedia _ _ _ | EvConsoleWarn _
  | EvAddTransceiver _ _ _ => true
  | _ => false
  end.

(** Effects of [_fetchPeerConfiguration]. *)
Definition settings_event (e : Event) : bool :=
  match e with
  | EvFetchWebRtcSettings => true
  | _ => false
  end.

(** Effects of [getMediaTracks]. *)
Definition capture_event (e : Event) : bool :=
  match e with
  | EvGetMedia _ _ _ | EvConsoleWarn _ => true
  | _ => false
  end.

(** Effects of the ["track"] listener. *)
Definition track_event (e : Event) : bool :=
  match e with
  | EvStreamAddTrack _ _ | EvVideoSrcObject _ | EvListenerError => true
  | _ => false
  end.

(** A stream is attached to the video element. *)
Definition attaches (e : Event) : bool :=
  match e with
  | EvVideoSrcObject _ => true
  | _ => false
  end.

(** Any effect but attaching a stream. *)
Definition quiet (e : Event) : bool := negb (attaches e).

(** The video element once [srcObject] is set to the stream [s]. *)
Definition showing (s : StreamId) (el : HTMLVideoElement) : HTMLVideoElement :=
  {| srcObject := Some s; srcAttr := srcAttr el |}.

(** The offer is submitted to the backend. *)
Definition submits (e : Event) : bool :=
  match e with
  | EvHandleWebRtcOffer _ _ => true
  | _ => false
  end.

(** The answer is handed to the browser as remote description. *)
Definition applies (e : Event) : bool :=
  match e with
  | EvSetRemoteDescription _ _ => true
  | _ => false
  end.

(** Effects of teardown: a track is stopped, the video element is reset, a
    peer connection is closed, the backend is told to release the stream. *)
Definition teardown_event (e : Event) : bool :=
  match e with
  | EvTrackStop _ | EvVideoReset | EvClosePeerConnection _
  | EvCloseWebRtcStream _ => true
  | _ => false
  end.

(** The tracks of a store after [stop()] on each of [ts], in order. *)
Definition stop_all (ts : list TrackId) (l : list MediaStreamTrack)
  : list MediaStreamTrack :=
  foldl (fun l t => alter track_stop t l) l ts.

(** The tracks a teardown calls [stop()] on: those of the remote stream,
    then the local return track. *)
Definition stopped_by_teardown (w : Widget) : list TrackId :=
  match _remoteStream w with
  | Some s => default [] (streams w !! s)
  | None => []
  end ++
  match _localReturnAudioTrack w with
  | Some t => [t]
  | None => []
  end.

(** The video element once its [src] attribute is removed. *)
Definition without_src (el : HTMLVideoElement) : HTMLVideoElement :=
  {| srcObject := srcObject el; srcAttr := None |}.

(** Effects of teardown before the peer connection is closed. *)
Definition stop_or_reset (e : Event) : bool :=
  match e with
  | EvTrackStop _ | EvVideoReset => true
  | _ => false
  end.

(** A peer connection as [setup_transport] leaves it: open, and without a
    ["track"] listener. *)
Definition new_session (p : RTCPeerConnection) : Prop :=
  closed p = false /\ trackListener p = None.

(** What firing tracks may change: tracks are added, streams are fed and
    the video element may be given a source. *)
Definition fired (added : list MediaStreamTrack) (w w' : Widget) : Prop :=
  pcs w' = pcs w /\ tracks w' = tracks w ++ added /\
  entityid w' = entityid w /\ hasUpdated w' = hasUpdated w /\
  _error w' = _error w /\ _peerConnection w' = _peerConnection w /\
  _remoteStream w' = _remoteStream w /\
  _localReturnAudioTrack w' = _localReturnAudioTrack w /\
  length (streams w') = length (streams w) /\
  (_videoEl w = None -> _videoEl w' = None).

(** The kind of media a transceiver carries: the kind it was created for,
    or the kind of the track it was seeded with. *)
Definition transceiver_kind (w : Widget) (t : Transceiver) : option string :=
  match seed t with
  | OfKind k => Some k
  | OfTrack id => kind <$> tracks w !! id
  end.

Definition is_audio (w : Widget) (t : Transceiver) : bool :=
  match transceiver_kind w t with
  | Some k => String.eqb k "audio"
  | None => false
  end.

(** The fallback settings fetch yields no settings: the component is not
    loaded, or the fetch gives nothing, or gives settings without a stun
    server. *)
Definition no_fallback_settings (env : Env) : Prop :=
  isComponentLoaded env "rtsp_to_webrtc" = false \/
  fetchWebRtcSettings env = Fulfilled None \/
  exists st, fetchWebRtcSettings env = Fulfilled (Some st) /\
             truthy_opt (stun_server st) = false.

(** Configuration resolution comes to an end with a configuration: the
    settings fetch, where it is made, does not reject. *)
Definition settings_fetch_settles (env : Env) : Prop :=
  isComponentLoaded env "rtsp_to_webrtc" = false \/
  exists st, fetchWebRtcSettings env = Fulfilled st.

(** ** Example environments and states *)

Definition audio_track : MediaStreamTrack :=
  {| kind := "audio"; enabled := true; stopped := false |}.

Definition video_track : MediaStreamTrack :=
  {| kind := "video"; enabled := true; stopped := false |}.

Definition two_way_config : WebRtcConfig :=
  {| rtc_configuration := None; create_data_channel := None;
     audio_direction := Some "sendrecv" |}.

(** Every collaborator succeeds: two-way audio, one captured microphone
    track, two candidates, an answer announcing a video track. *)
Definition env_ok : Env :=
  {| fetchWebRtcConfig := fun _ => Fulfilled (Some two_way_config);
     isComponentLoaded := fun _ => false;
     fetchWebRtcSettings := Fulfilled None;
     mediaDevices := true;
     getUserMedia := Fulfilled [audio_track];
     getDisplayMedia := Rejected None;
     createOffer := Fulfilled "v=0";
     setLocalDescription := Fulfilled tt;
     icecandidate := [Some "candidate:1"; Some "candidate:2"; None];
     handleWebRtcOffer := fun _ _ => Fulfilled {| answer := "v=0 answer" |};
     setRemoteDescription := Fulfilled [video_track];
     closeWebRtcStream := fun _ => Fulfilled tt |}.

(** The offer [env_ok] leads to: the description, then one line for each
    of the two candidates. *)
Definition offer_of_example : string :=
  "v=0" +:+ ("a=candidate:1" +:+ crlf) +:+ ("a=candidate:2" +:+ crlf).

(** A widget that has rendered its video element and not started yet. *)
Definition rendered_widget (entity : string) : Widget :=
  {| entityid := entity; hasUpdated := true; _error := None;
     _videoEl := Some {| srcObject := None; srcAttr := None |};
     _peerConnection := None; _remoteStream := None;
     _localReturnAudioTrack := None;
     pcs := []; streams := []; tracks := [] |}.

(** As [env_ok], but the user denies the microphone. *)
Definition env_capture_denied : Env :=
  {| fetchWebRtcConfig := fetchWebRtcConfig env_ok;
     isComponentLoaded := isComponentLoaded env_ok;
     fetchWebRtcSettings := fetchWebRtcSettings env_ok;
     mediaDevices := mediaDevices env_ok;
     getUserMedia := Rejected (Some "Permission denied");
     getDisplayMedia := getDisplayMedia env_ok;
     createOffer := createOffer env_ok;
     setLocalDescription := setLocalDescription env_ok;
     icecandidate := icecandidate env_ok;
     handleWebRtcOffer := handleWebRtcOffer env_ok;
     setRemoteDescription := setRemoteDescription env_ok;
     closeWebRtcStream := closeWebRtcStream env_ok |}.

(** As [env_ok], but the backend rejects the offer. *)
Definition env_signal_refused : Env :=
  {| fetchWebRtcConfig := fetchWebRtcConfig env_ok;
     isComponentLoaded := isComponentLoaded env_ok;
     fetchWebRtcSettings := fetchWebRtcSettings env_ok;
     mediaDevices := mediaDevices env_ok;
     getUserMedia := getUserMedia env_ok;
     getDisplayMedia := getDisplayMedia env_ok;
     createOffer := createOffer env_ok;
     setLocalDescription := setLocalDescription env_ok;
     icecandidate := icecandidate env_ok;
     handleWebRtcOffer := fun _ _ => Rejected (Some "Camera is offline");
     setRemoteDescription := setRemoteDescription env_ok;
     closeWebRtcStream := closeWebRtcStream env_ok |}.

(** As [env_ok], but the browser refuses the answer. *)
Definition env_answer_refused : Env :=
  {| fetchWebRtcConfig := fetchWebRtcConfig env_ok;
     isComponentLoaded := isComponentLoaded env_ok;
     fetchWebRtcSettings := fetchWebRtcSettings env_ok;
     mediaDevices := mediaDevices env_ok;
     getUserMedia := getUserMedia env_ok;
     getDisplayMedia := getDisplayMedia env_ok;
     createOffer := createOffer env_ok;
     setLocalDescription := setLocalDescription env_ok;
     icecandidate := icecandidate env_ok;
     handleWebRtcOffer := handleWebRtcOffer env_ok;
     setRemoteDescription := Rejected (Some "Invalid SDP");
     closeWebRtcStream := closeWebRtcStream env_ok |}.

(** As [env_ok], but the backend rejects the release request. *)
Definition env_release_refused : Env :=
  {| fetchWebRtcConfig := fetchWebRtcConfig env_ok;
     isComponentLoaded := isComponentLoaded env_ok;
     fetchWebRtcSettings := fetchWebRtcSettings env_ok;
     mediaDevices := mediaDevices env_ok;
     getUserMedia := getUserMedia env_ok;
     getDisplayMedia := getDisplayMedia env_ok;
     createOffer := createOffer env_ok;
     setLocalDescription := setLocalDescription env_ok;
     icecandidate := icecandidate env_ok;
     handleWebRtcOffer := handleWebRtcOffer env_ok;
     setRemoteDescription := setRemoteDescription env_ok;
     closeWebRtcStream := fun _ => Rejected (Some "Unknown error") |}.

(** As [env_ok], but the backend has no configuration for the entity. *)
Definition env_no_configuration : Env :=
  {| fetchWebRtcConfig := fun _ => Fulfilled None;
     isComponentLoaded := isComponentLoaded env_ok;
     fetchWebRtcSettings := fetchWebRtcSettings env_ok;
     mediaDevices := mediaDevices env_ok;
     getUserMedia := getUserMedia env_ok;
     getDisplayMedia := getDisplayMedia env_ok;
     createOffer := createOffer env_ok;
     setLocalDescription := setLocalDescription env_ok;
     icecandidate := icecandidate env_ok;
     handleWebRtcOffer := handleWebRtcOffer env_ok;
     setRemoteDescription := setRemoteDescription env_ok;
     closeWebRtcStream := closeWebRtcStream env_ok |}.

(** A widget streaming camera.a, and the same once the page has set its
    [entityid] to camera.b: the session of camera.a is still recorded. *)
Definition streaming_widget : Widget :=
  final (_startWebRtc env_ok (rendered_widget "camera.a")).

Definition retargeted_widget : Widget :=
  set_entityid "camera.b" streaming_widget.

(** The claim that an identifier change tears the session down before the
    negotiation starts again: the recorded peer connection is closed before
    the configuration is fetched for the new identifier. *)
Definition torn_down_before_restart (env : Env) (changed : list string)
  (w : Widget) : Prop :=
  forall pc, _peerConnection w = Some pc ->
  exists before rest,
    events (updated env changed w)
    = before ++ EvFetchWebRtcConfig (entityid w) :: rest /\
    In (EvClosePeerConnection pc) before.

(** The claim that teardown never throws: the promise of [_cleanUp]
    fulfils. *)
Definition cleanup_never_throws (env : Env) (w : Widget) : Prop :=
  result (_cleanUp env w) = Val tt.

(** The claim that a teardown after an aborted negotiation closes nothing
    and asks the backend for nothing. *)
Definition silent_after_abort (env env2 : Env) (w : Widget) : Prop :=
  let r := _startWebRtc env w in
  _error (final r) <> None ->
  forall e, In e (events (_cleanUp env2 (final r))) ->
    (forall pc, e <> EvClosePeerConnection pc) /\
    (forall entity, e <> EvCloseWebRtcStream entity).

(** As [env_ok], but the backend gives the transport configuration itself,
    asks for a data channel and reports no two-way audio. *)
Definition turn_configuration : RTCConfiguration :=
  {| iceServers := Some [ {| urls := ["turn:turn.example.org"] |} ] |}.

Definition env_configured : Env :=
  {| fetchWebRtcConfig := fun _ =>
       Fulfilled (Some {| rtc_configuration := Some turn_configuration;
                          create_data_channel := Some true;
                          audio_direction := None |});
     isComponentLoaded := isComponentLoaded env_ok;
     fetchWebRtcSettings := fetchWebRtcSettings env_ok;
     mediaDevices := mediaDevices env_ok;
     getUserMedia := getUserMedia env_ok;
     getDisplayMedia := getDisplayMedia env_ok;
     createOffer := createOffer env_ok;
     setLocalDescription := setLocalDescription env_ok;
     icecandidate := icecandidate env_ok;
     handleWebRtcOffer := handleWebRtcOffer env_ok;
     setRemoteDescription := setRemoteDescription env_ok;
     closeWebRtcStream := closeWebRtcStream env_ok |}.

(** As [env_no_configuration], with the fallback component loaded and a
    STUN server in its settings. *)
Definition env_stun : Env :=
  {| fetchWebRtcConfig := fetchWebRtcConfig env_no_configuration;
     isComponentLoaded := fun _ => true;
     fetchWebRtcSettings :=
       Fulfilled (Some {| stun_server := Some "stun.example.org:3478" |});
     mediaDevices := mediaDevices env_ok;
     getUserMedia := getUserMedia env_ok;
     getDisplayMedia := getDisplayMedia env_ok;
     createOffer := createOffer env_ok;
     setLocalDescription := setLocalDescription env_ok;
     icecandidate := icecandidate env_ok;
     handleWebRtcOffer := handleWebRtcOffer env_ok;
     setRemoteDescription := setRemoteDescription env_ok;
     closeWebRtcStream := closeWebRtcStream env_ok |}.

(** As [env_ok], but the configuration fetch fails. *)
Definition env_unreachable : Env :=
  {| fetchWebRtcConfig := fun _ => Rejected (Some "Connection lost");
     isComponentLoaded := isComponentLoaded env_ok;
     fetchWebRtcSettings := fetchWebRtcSettings env_ok;
     mediaDevices := mediaDevices env_ok;
     getUserMedia := getUserMedia env_ok;
     getDisplayMedia := getDisplayMedia env_ok;
     createOffer := createOffer env_ok;
     setLocalDescription := setLocalDescription env_ok;
     icecandidate := icecandidate env_ok;
     handleWebRtcOffer := handleWebRtcOffer env_ok;
     setRemoteDescription := setRemoteDescription env_ok;
     closeWebRtcStream := closeWebRtcStream env_ok |}.

(** As [env_ok], but the browser never announces the end of candidate
    gathering. *)
Definition env_gathering_stalls : Env :=
  {| fetchWebRtcConfig := fetchWebRtcConfig env_ok;
     isComponentLoaded := isComponentLoaded env_ok;
     fetchWebRtcSettings := fetchWebRtcSettings env_ok;
     mediaDevices := mediaDevices env_ok;
     getUserMedia := getUserMedia env_ok;
     getDisplayMedia := getDisplayMedia env_ok;
     createOffer := createOffer env_ok;
     setLocalDescription := setLocalDescription env_ok;
     icecandidate := [Some "candidate:1"];
     handleWebRtcOffer := handleWebRtcOffer env_ok;
     setRemoteDescription := setRemoteDescription env_ok;
     closeWebRtcStream := closeWebRtcStream env_ok |}.

(** A page that has just rendered the widget for camera.a. *)
Definition fresh_page : Page :=
  {| widget := rendered_widget "camera.a"; suspended := []; trace := [] |}.

(** Two negotiations started one after the other, [second] carried
    through before [first] goes on. *)
Definition overlapping (first second : Env) : list Action :=
  [Updated first ["entityid"]; Updated second ["entityid"]] ++
  repeat (Resume 1) 10 ++ repeat (Resume 0) 10.

(** * Proofs *)

(** ** Symbolic execution *)

Lemma alter_fresh {A} (f : A -> A) (l k : list A) (x : A) :
  alter f (length l) (l ++ x :: k) = l ++ f x :: k.
Proof. induction l; simpl; [done|]. by f_equal. Qed.

(** Unfold the sequencing, leaving the helper methods folded. *)
Ltac run :=
  repeat (unfold bind, attempt, not_awaited;
          cbn -[_fetchPeerConfiguration getMediaTracks for_each];
          rewrite ?alter_fresh).

Ltac solve_events :=
  solve [repeat first [rewrite forallb_app | progress cbn];
         repeat match goal with
                | H : forallb _ _ = true |- _ => rewrite H; clear H
                end; reflexivity].

(** ** The helper methods *)

Lemma fetchPeerConfiguration_frame env w :
  let r := _fetchPeerConfiguration env w in
  final r = w /\ forallb setup_event (events r) = true /\ result r <> Pending.
Proof.
  unfold _fetchPeerConfiguration.
  destruct (isComponentLoaded env "rtsp_to_webrtc"); [|done].
  destruct (fetchWebRtcSettings env) as [[st|]|]; run; [|done|done].
  destruct (truthy_opt (stun_server st)); done.
Qed.

Lemma getMediaTracks_frame env c w :
  let r := getMediaTracks env "user" c w in
  forallb setup_event (events r) = true /\
  ((final r = w /\ result r = Val []) \/
   exists t l, getUserMedia env = Fulfilled (t :: l) /\ mediaDevices env = true /\
     final r = set_tracks (tracks w ++ t :: l) w /\
     result r = Val (seq (length (tracks w)) (S (length l)))).
Proof.
  unfold getMediaTracks, alloc_tracks.
  destruct (mediaDevices env); run; [|by auto].
  destruct (getUserMedia env) as [[|t l]|]; run; [| |by auto].
  - split; [done|]. left. split; [|done]. destruct w; cbn. by rewrite app_nil_r.
  - split; [done|]. right. by exists t, l.
Qed.

Ltac on_fetchPeerConfiguration :=
  match goal with
  | |- context [_fetchPeerConfiguration ?env ?w] =>
      let H := fresh "Hfetch" in
      pose proof (fetchPeerConfiguration_frame env w) as H;
      destruct (_fetchPeerConfiguration env w) as [? ? [?|?|]];
      cbn in H; destruct H as (-> & ? & ?)
  end.

Ltac on_getMediaTracks :=
  match goal with
  | |- context [getMediaTracks ?env ?media ?c ?w] =>
      let H := fresh "Hmedia" in
      pose proof (getMediaTracks_frame env c w) as H;
      destruct (getMediaTracks env media c w) as [? ? ?];
      cbn in H;
      destruct H as (? & [(-> & ->) | (? & ? & ? & ? & -> & ->)])
  end.

Ltac close_shape :=
  repeat match goal with
  | |- _ /\ _ => split
  | |- forallb _ _ = true => solve_events
  | |- _ `prefix_of` _ => first [reflexivity | by apply prefix_app_r]
  | |- forall pc, Val _ = Val pc -> _ => intros ? [= <-]
  | |- forall pc, _ = Val pc -> _ => by intros ? [=]
  | |- _ \/ _ => first [by left | right]
  | |- exists p, _ => eexists; split; [reflexivity | done]
  | |- _ = _ => reflexivity
  end.

(** ** Transport setup *)

(** Whatever the collaborators answer, transport setup clears the error,
    adds at most one peer connection, open and without listener, adds
    tracks only behind the existing ones, and touches nothing else. *)
Lemma setup_transport_shape env w :
  let r := setup_transport env w in
  (entityid (final r) = entityid w /\ hasUpdated (final r) = hasUpdated w /\
   _videoEl (final r) = _videoEl w /\
   _peerConnection (final r) = _peerConnection w /\
   _remoteStream (final r) = _remoteStream w /\
   streams (final r) = streams w /\ _error (final r) = None) /\
  forallb setup_event (events r) = true /\
  tracks w `prefix_of` tracks (final r) /\
  (pcs (final r) = pcs w \/
   exists p, pcs (final r) = pcs w ++ [p] /\ new_session p) /\
  (forall pc, result r = Val pc ->
     pc = length (pcs w) /\
     exists p, pcs (final r) = pcs w ++ [p] /\ new_session p).
Proof.
  unfold setup_transport, alloc_pc, update_pc, addTransceiver. run.
  destruct (fetchWebRtcConfig env (entityid w)) as [cfg|m]; run;
    [|by repeat split; auto].
  destruct (cfg ≫= rtc_configuration) as [c|]; run;
    [|on_fetchPeerConfiguration; run].
  all: try (by repeat split; auto).
  all: destruct (wants (cfg ≫= create_data_channel)); run.
  all: destruct (is_sendrecv (cfg ≫= audio_direction) && mediaDevices env); run.
  all: try on_getMediaTracks; run.
  all: try (destruct (_localReturnAudioTrack w)); run.
  all: close_shape.
Qed.

(** ** The ["track"] listener *)

Lemma fire_track_shape pc t w :
  let r := fire_track pc t w in
  result r = Val tt /\ forallb track_event (events r) = true /\
  fired [t] w (final r).
Proof.
  unfold fire_track, alloc_track, on_track, fired. run.
  destruct (pcs w !! pc ≫= trackListener) as [s|]; run;
    [destruct (_videoEl w) as [el|] eqn:Hv; run|].
  all: rewrite ?length_alter; repeat split; auto; done.
Qed.

Lemma fire_tracks_shape pc incoming : forall w,
  let r := for_each incoming (fire_track pc) w in
  result r = Val tt /\ forallb track_event (events r) = true /\
  fired incoming w (final r).
Proof.
  induction incoming as [|t incoming IH]; intros w; cbn [for_each].
  - cbn. unfold fired. rewrite app_nil_r. by repeat split.
  - unfold bind.
    pose proof (fire_track_shape pc t w) as H1.
    destruct (fire_track pc t w) as [w1 e1 r1]. cbn in H1.
    destruct H1 as (-> & He1 & Hf1).
    specialize (IH w1).
    destruct (for_each incoming (fire_track pc) w1) as [w2 e2 r2]. cbn in IH.
    destruct IH as (-> & He2 & Hf2). cbn.
    split; [done|]. split; [by rewrite forallb_app, He1, He2|].
    unfold fired in *.
    destruct Hf1 as (A1 & A2 & A3 & A4 & A5 & A6 & A7 & A8 & A9 & A10).
    destruct Hf2 as (B1 & B2 & B3 & B4 & B5 & B6 & B7 & B8 & B9 & B10).
    rewrite B1, B2, B3, B4, B5, B6, B7, B8, B9, A1, A2, A3, A4, A5, A6, A7, A8, A9.
    rewrite <- app_assoc. repeat split; auto.
Qed.

Ltac on_fire_tracks :=
  match goal with
  | |- context [for_each ?l (fire_track ?pc) ?w] =>
      let H := fresh "Hfired" in
      pose proof (fire_tracks_shape pc l w) as H;
      destruct (for_each l (fire_track pc) w) as [after_tracks track_events ?];
      cbn in H; destruct H as (-> & Htrack_events & H); unfold fired in H;
      cbn in H;
      destruct H as (Fpcs & Ftracks & Fentity & Fupd & Ferror & Fpc & Fremote &
                     Flocal & Fstreams & Fvideo)
  end.

(** ** Case analysis on a run of [_startWebRtc]

    [negotiate env w r] names the run [r] and splits on how far it gets:
    the remote description is applied; it is refused; signaling is refused;
    candidate gathering never ends; the local description is refused; no
    offer is made; transport setup throws; transport setup stays pending. *)
Ltac negotiate env w r :=
  let Hr := fresh "Hr" in
  remember (_startWebRtc env w) as r eqn:Hr in *; revert Hr;
  unfold _startWebRtc; unfold bind at 1;
  let Hs := fresh "Hs" in
  let Hval := fresh "Hval" in
  pose proof (setup_transport_shape env w) as Hs;
  destruct (setup_transport env w) as [w1 setup_events [pc|x|]]; cbn in Hs;
  destruct Hs as ((Hentity & Hupd & Hvideo & Hpc & Hremote & Hstreams & Herror)
                  & Hsetup_events & Htracks & Hpcs & Hval);
  destruct w1; cbn in *; subst;
  [ destruct (Hval _ eq_refl) as (-> & p & -> & Hclosed & Hlistener);
    clear Hval Hpcs;
    unfold build_offer, exchange, do_setRemoteDescription, alloc_stream,
      close_pc, update_pc, iceResolver; run;
    destruct (createOffer env) as [offer|?] eqn:Hoffer; run;
    [ destruct (setLocalDescription env) as [?|?] eqn:Hlocal; run;
      [ destruct (gather (icecandidate env) "") as [candidates|] eqn:Hgather;
        run;
        [ match goal with
          | |- context [handleWebRtcOffer env ?e ?sdp] =>
              destruct (handleWebRtcOffer env e sdp) as [webRtcAnswer|signal_error]
                eqn:Hsignal; run
          end;
          [ destruct (setRemoteDescription env) as [incoming|apply_error] eqn:Happly;
            run;
            [ on_fire_tracks; run | ]
          | ]
        | ]
      | ]
    | ]
  | clear Hval | clear Hval ];
  intros ->; cbn in *.

(** ** Event lists *)

Lemma forallb_weaken {A} (P Q : A -> bool) (l : list A) :
  (forall x, P x = true -> Q x = true) ->
  forallb P l = true -> forallb Q l = true.
Proof.
  intros HPQ. induction l as [|x l IH]; cbn; [done|].
  intros [Hx Hl]%andb_true_iff. by rewrite (HPQ x Hx), IH.
Qed.

Lemma setup_events_quiet l :
  forallb setup_event l = true -> forallb quiet l = true.
Proof. apply forallb_weaken. by intros []. Qed.

Lemma quiet_no_attach l pre s post :
  forallb quiet l = true -> l <> pre ++ EvVideoSrcObject s :: post.
Proof.
  intros Hq ->. rewrite forallb_app in Hq. cbn in Hq.
  by rewrite andb_false_r in Hq.
Qed.

Lemma attach_after l a rest pre s post :
  forallb quiet l = true -> attaches a = false ->
  l ++ a :: rest = pre ++ EvVideoSrcObject s :: post ->
  In a pre.
Proof.
  revert pre. induction l as [|e l IH]; intros pre Hq Ha Heq.
  - destruct pre as [|e' pre]; cbn in Heq.
    + injection Heq as -> _. done.
    + injection Heq as -> _. by left.
  - cbn in Hq. apply andb_true_iff in Hq as [He Hl].
    destruct pre as [|e' pre]; cbn in Heq.
    + injection Heq as -> _. done.
    + injection Heq as -> Heq. right. by apply IH.
Qed.

(** ** Ordering of stream attachment *)

(** C9.  In every run of the negotiation, whatever the collaborators
    answer, a stream is attached to the video element only after the remote
    description has been applied to the new peer connection, and only when
    its application succeeds. *)
Theorem no_attachment_before_remote_description env w pre s post :
  events (_startWebRtc env w) = pre ++ EvVideoSrcObject s :: post ->
  In (EvRemoteDescriptionApplied (length (pcs w))) pre /\
  exists incoming, setRemoteDescription env = Fulfilled incoming.
Proof.
  intros H. negotiate env w r.
  1: { split; [|by eauto].
       rewrite app_nil_r in H.
       eapply (attach_after (setup_events ++ [_; _; _; _; _; _; _])); [| |
         rewrite <- app_assoc; exact H]; [|done].
       rewrite forallb_app, setup_events_quiet by done. done. }
  all: exfalso; revert H; try rewrite app_nil_r; apply quiet_no_attach.
  all: rewrite ?forallb_app, setup_events_quiet by done; done.
Qed.

Lemma no_setup_event P l (x : Event) :
  forallb P l = true -> P x = false -> ~ In x l.
Proof.
  intros Hl Hx Hin. apply (proj1 (forallb_forall _ _) Hl) in Hin. congruence.
Qed.

Lemma in_track_stops (e : Event) (ts : list TrackId) :
  In e (EvTrackStop <$> ts) -> exists t, e = EvTrackStop t.
Proof.
  induction ts as [|t ts IH]; cbn; [done|]. intros [<-|H]; eauto.
Qed.

(** Split a hypothesis [In x l], for the event list [l] of a run, into the
    events [x] can be; those of another shape are dismissed. *)
Ltac in_events H :=
  repeat match type of H with
  | In _ (_ ++ _) => apply in_app_or in H as [H|H]
  | In _ (EvTrackStop <$> _) => apply in_track_stops in H as [? H]
  | In ?x ?l =>
      match goal with
      | Hl : forallb ?P l = true |- _ =>
          exfalso; exact (no_setup_event P l x Hl eq_refl H)
      end
  | In _ (_ :: _) => destruct H as [H|H]
  | In _ [] => destruct H
  | _ \/ _ => destruct H as [H|H]
  | False => destruct H
  | _ = _ => discriminate H
  end.

(** Show that an event is in the event list of a run. *)
Ltac show_in :=
  rewrite ?in_app_iff; cbn;
  repeat first [assumption | solve [left; done] | right].

(** ** The two failure points *)

(** C1.  When the offer is submitted and the backend rejects it, the run
    returns with the error message set (so that [render] shows the alert
    instead of the video), the new peer connection is closed, no ["track"]
    listener was registered on it, and no stream is attached to the video
    element; the video element, the streams and the recorded session are
    as before the run. *)
Theorem signaling_failure_aborts env w sdp msg :
  In (EvHandleWebRtcOffer (entityid w) sdp) (events (_startWebRtc env w)) ->
  handleWebRtcOffer env (entityid w) sdp = Rejected msg ->
  let r := _startWebRtc env w in
  let text := js_concat "Failed to start WebRTC stream: " msg in
  result r = Val tt /\
  _error (final r) = Some text /\ render (final r) = Alert text /\
  (exists p, pcs (final r) !! length (pcs w) = Some p /\
             closed p = true /\ trackListener p = None) /\
  In (EvClosePeerConnection (length (pcs w))) (events r) /\
  (forall pc s, ~ In (EvTrackListener pc s) (events r)) /\
  (forall s, ~ In (EvVideoSrcObject s) (events r)) /\
  _videoEl (final r) = _videoEl w /\ streams (final r) = streams w /\
  _remoteStream (final r) = _remoteStream w /\
  _peerConnection (final r) = _peerConnection w.
Proof.
  intros H Hrej. negotiate env w r.
  all: in_events H.
  all: injection H as <-; try congruence.
  rewrite Hrej in Hsignal. injection Hsignal as <-.
  repeat split; try done.
  - eexists. split; [by apply list_lookup_middle|]. done.
  - show_in.
  - intros pc s H. in_events H.
  - intros s H. in_events H.
Qed.


(** C5.  When the answer is being applied as remote description and the
    browser refuses it, the run returns with the error message set (so that
    [render] shows the alert instead of the video), the new peer connection
    is closed, and [_peerConnection] is left as it was: the new peer
    connection is not recorded. *)
Theorem remote_description_failure_aborts env w id answer_sdp reason :
  In (EvSetRemoteDescription id answer_sdp) (events (_startWebRtc env w)) ->
  setRemoteDescription env = Rejected reason ->
  let r := _startWebRtc env w in
  let text := js_concat "Failed to connect WebRTC stream: " reason in
  id = length (pcs w) /\ result r = Val tt /\
  _error (final r) = Some text /\ render (final r) = Alert text /\
  (exists p, pcs (final r) !! id = Some p /\ closed p = true) /\
  In (EvClosePeerConnection id) (events r) /\
  _peerConnection (final r) = _peerConnection w /\
  ((forall i, _peerConnection w = Some i -> i < length (pcs w)) ->
   _peerConnection (final r) <> Some id) /\
  (forall s, ~ In (EvVideoSrcObject s) (events r)).
Proof.
  intros H Hrej. negotiate env w r.
  all: in_events H.
  all: injection H as <- <-; try congruence.
  injection Hrej as ->.
  repeat split; try done.
  - eexists. split; [by apply list_lookup_middle|]. done.
  - show_in.
  - intros Hwf Heq. apply Hwf in Heq. lia.
  - intros s H. in_events H.
Qed.
(** ** The offer payload *)

Lemma append_assoc (a b c : string) : (a +:+ b) +:+ c = a +:+ (b +:+ c).
Proof. induction a as [|x a IH]; [done|]. unfold String.append in *; fold String.append in *. by rewrite IH. Qed.

Lemma append_nil_r (a : string) : a +:+ "" = a.
Proof. induction a as [|x a IH]; [done|]. unfold String.append in *; fold String.append in *. by rewrite IH. Qed.

Lemma gather_complete events : forall acc collected,
  gather events acc = Some collected ->
  exists gathered rest,
    events = (Some <$> gathered) ++ None :: rest /\
    collected = acc +:+ candidate_lines gathered.
Proof.
  induction events as [|[c|] events IH]; intros acc collected H; cbn in H.
  - done.
  - apply IH in H as (gathered & rest & -> & ->).
    exists (c :: gathered), rest. split; [done|].
    cbn [candidate_lines]. by rewrite !append_assoc.
  - injection H as <-. exists [], events. split; [done|].
    cbn. by rewrite append_nil_r.
Qed.

Lemma gather_null gathered rest : forall acc,
  gather ((Some <$> gathered) ++ None :: rest) acc
  = Some (acc +:+ candidate_lines gathered).
Proof.
  induction gathered as [|c gathered IH]; intros acc; cbn.
  - by rewrite append_nil_r.
  - rewrite IH. by rewrite !append_assoc.
Qed.

(** C8.  Whatever is submitted to the backend as the offer is the session
    description made by [createOffer] followed by one line ["a=" + candidate
    + "\r\n"] for each candidate gathered, in gathering order, up to the
    event without a candidate that ends the gathering; it is submitted for
    the widget's entity. *)
Theorem offer_payload env w entity payload :
  In (EvHandleWebRtcOffer entity payload) (events (_startWebRtc env w)) ->
  exists offer gathered rest,
    createOffer env = Fulfilled offer /\
    icecandidate env = (Some <$> gathered) ++ None :: rest /\
    payload = offer +:+ candidate_lines gathered /\
    entity = entityid w.
Proof.
  intros H. negotiate env w r.
  all: in_events H.
  all: injection H as <- <-.
  all: apply gather_complete in Hgather as (gathered & rest & Hice & ->).
  all: by exists offer, gathered, rest.
Qed.

(** When transport setup succeeds, an offer is made and installed, and the
    gathering ends, the payload above is submitted. *)
Lemma offer_is_submitted env w id description gathered rest :
  result (setup_transport env w) = Val id ->
  createOffer env = Fulfilled description ->
  setLocalDescription env = Fulfilled tt ->
  icecandidate env = (Some <$> gathered) ++ None :: rest ->
  In (EvHandleWebRtcOffer (entityid w)
        (description +:+ candidate_lines gathered))
     (events (_startWebRtc env w)).
Proof.
  intros Hsetup Hmade Hinstalled Hice.
  assert (Hg : gather (icecandidate env) "" = Some (candidate_lines gathered)).
  { rewrite Hice, gather_null. done. }
  revert Hsetup. negotiate env w r; intros Hsetup; try congruence.
  all: injection Hmade as <-; injection Hg as <-.
  all: show_in.
Qed.

(** ** Teardown *)

Lemma stop_tracks_run ts : forall w,
  for_each ts stop_track w =
  {| final := set_tracks (stop_all ts (tracks w)) w;
     events := EvTrackStop <$> ts; result := Val tt |}.
Proof.
  induction ts as [|t ts IH]; intros w; cbn [for_each].
  - by destruct w.
  - unfold bind, stop_track. unfold bind. cbn. rewrite IH. by destruct w.
Qed.

Lemma track_stop_twice t (l : list MediaStreamTrack) :
  alter track_stop t (alter track_stop t l) = alter track_stop t l.
Proof.
  rewrite list_alter_alter_eq. apply list_alter_ext; [|done]. by intros [].
Qed.

(** Case analysis on a call of [_cleanUp env w], named [r]: on the fields
    the guards test and on the answer to the release request. *)
Ltac clean env w r :=
  let Hr := fresh "Hr" in
  remember (_cleanUp env w) as r eqn:Hr in *; revert Hr;
  unfold _cleanUp, close_pc, update_pc, stop_track; run;
  destruct (_remoteStream w) as [remote|] eqn:Hremote; run;
  rewrite ?stop_tracks_run; run;
  destruct (_localReturnAudioTrack w) as [local|] eqn:Hlocal; run;
  destruct (_videoEl w) as [el|] eqn:Hvideo; run;
  destruct (_peerConnection w) as [recorded|] eqn:Hrecorded; run;
  try match goal with
      | |- context [closeWebRtcStream env ?e] =>
          destruct (closeWebRtcStream env e) as [?|release_error] eqn:Hrelease;
          run
      end;
  intros ->; cbn in *;
  repeat match goal with
         | H : ?f w = _ |- context [?f w] => rewrite H
         end.

Lemma release_sent_iff_recorded env w :
  (exists e, In (EvCloseWebRtcStream e) (events (_cleanUp env w))) <->
  is_Some (_peerConnection w).
Proof.
  clean env w r.
  all: split; [intros [e H]; in_events H; by eexists | intros [? Heq]].
  all: try discriminate Heq.
  all: exists (entityid w); show_in.
Qed.

(** What a teardown leaves: nothing recorded, the local track stopped, the
    video element without [src]. *)
Lemma cleanup_leaves env w :
  let w' := final (_cleanUp env w) in
  _remoteStream w' = None /\ _peerConnection w' = None /\
  (forall t, _localReturnAudioTrack w' = Some t ->
             alter track_stop t (tracks w') = tracks w') /\
  (forall el, _videoEl w' = Some el -> srcAttr el = None).
Proof.
  clean env w r.
  all: repeat split; try done.
  all: try (intros ? [= <-]; by rewrite ?track_stop_twice).
Qed.

(** How a teardown ends: its promise rejects only when the release request
    does, and that request is made only for a recorded peer connection. *)
Lemma cleanup_result env w :
  let r := _cleanUp env w in
  (_peerConnection w = None -> result r = Val tt) /\
  (forall pc reason, _peerConnection w = Some pc ->
     closeWebRtcStream env (entityid w) = Rejected reason ->
     result r = Throw {| message := reason |}) /\
  (result r = Val tt \/
   exists pc reason, _peerConnection w = Some pc /\
     closeWebRtcStream env (entityid w) = Rejected reason /\
     result r = Throw {| message := reason |}).
Proof.
  clean env w r.
  all: split; [try done|].
  all: split; [intros ? ? ? [=]; by subst|].
  all: try (right; by eauto).
  all: left; match goal with |- Val ?u = _ => by destruct u end.
Qed.

(** A teardown with nothing left to release changes nothing. *)
Lemma cleanup_idle env w :
  _remoteStream w = None -> _peerConnection w = None ->
  (forall t, _localReturnAudioTrack w = Some t ->
             alter track_stop t (tracks w) = tracks w) ->
  (forall el, _videoEl w = Some el -> srcAttr el = None) ->
  let r := _cleanUp env w in
  result r = Val tt /\ final r = w /\
  (forall e, In e (events r) -> (exists t, e = EvTrackStop t) \/ e = EvVideoReset).
Proof.
  intros Hrs Hpc Hstopped Hsrc. clean env w r; try discriminate.
  all: split; [done|]; split; [|intros e H; in_events H; eauto].
  all: destruct w; cbn in *; subst.
  all: try rewrite (Hstopped _ eq_refl).
  all: try (specialize (Hsrc _ eq_refl); destruct el; cbn in Hsrc; subst).
  all: done.
Qed.

Lemma stop_all_app ts1 ts2 l :
  stop_all (ts1 ++ ts2) l = stop_all ts2 (stop_all ts1 l).
Proof. unfold stop_all. by rewrite foldl_app. Qed.

(** The state a teardown ends in. *)
Lemma cleanup_state env w :
  let w' := final (_cleanUp env w) in
  (entityid w' = entityid w /\ hasUpdated w' = hasUpdated w /\
   _error w' = _error w /\ streams w' = streams w /\
   _localReturnAudioTrack w' = _localReturnAudioTrack w) /\
  _remoteStream w' = None /\ _peerConnection w' = None /\
  tracks w' = stop_all (stopped_by_teardown w) (tracks w) /\
  pcs w' = match _peerConnection w with
           | Some pc => alter pc_close pc (pcs w)
           | None => pcs w
           end /\
  _videoEl w' = without_src <$> _videoEl w.
Proof.
  unfold stopped_by_teardown. clean env w r.
  all: rewrite ?stop_all_app; repeat split; try done.
Qed.

(** The effects of a teardown, in order. *)
Lemma cleanup_events env w :
  events (_cleanUp env w)
  = (EvTrackStop <$> stopped_by_teardown w) ++
    match _videoEl w with Some _ => [EvVideoReset] | None => [] end ++
    match _peerConnection w with
    | Some pc => [EvClosePeerConnection pc; EvCloseWebRtcStream (entityid w)]
    | None => []
    end.
Proof.
  unfold stopped_by_teardown. clean env w r.
  all: rewrite ?fmap_app, ?app_nil_r, <- ?app_assoc; reflexivity.
Qed.

(** C7 (amended).  Two teardowns in a row never fail for want of a
    session: every step is guarded.  The second call always fulfils and
    changes nothing, and its effects are exactly these, in this order: the
    local return track, if the widget has one, is stopped again (line 257:
    the field is never cleared), and the video element, if rendered, is
    reset again (lines 260-261).  No track of the remote stream is stopped
    a second time, no peer connection is closed and no release request is
    sent: the first call cleared both fields.  The first call fulfils
    whenever no peer connection is recorded; with one recorded, its promise
    rejects exactly when the release request to the backend does. *)
Theorem cleanup_twice env env2 w :
  let first := _cleanUp env w in
  let second := _cleanUp env2 (final first) in
  result second = Val tt /\ final second = final first /\
  events second
  = match _localReturnAudioTrack w with
    | Some t => [EvTrackStop t]
    | None => []
    end ++
    match _videoEl w with Some _ => [EvVideoReset] | None => [] end /\
  (_peerConnection w = None -> result first = Val tt) /\
  (forall pc reason, _peerConnection w = Some pc ->
     closeWebRtcStream env (entityid w) = Rejected reason ->
     result first = Throw {| message := reason |}) /\
  (result first = Val tt \/
   exists pc reason, _peerConnection w = Some pc /\
     closeWebRtcStream env (entityid w) = Rejected reason /\
     result first = Throw {| message := reason |}).
Proof.
  intros first second.
  destruct (cleanup_leaves env w) as (L1 & L2 & L3 & L4).
  destruct (cleanup_idle env2 (final first) L1 L2 L3 L4) as (I1 & I2 & _).
  destruct (cleanup_result env w) as (R1 & R2 & R3).
  destruct (cleanup_state env w) as ((_ & _ & _ & _ & S1) & _ & _ & _ & _ & S2).
  repeat split; try done.
  subst first second. rewrite cleanup_events.
  unfold stopped_by_teardown. rewrite L1, L2, S1, S2, app_nil_r.
  by destruct (_localReturnAudioTrack w), (_videoEl w).
Qed.

(** ** Configuration resolution *)

Lemma fetchPeerConfiguration_empty env w :
  no_fallback_settings env ->
  exists e, _fetchPeerConfiguration env w =
            {| final := w; events := e; result := Val empty_configuration |} /\
            forallb setup_event e = true.
Proof.
  unfold _fetchPeerConfiguration, no_fallback_settings.
  intros [H|[H|(st & H & Hst)]].
  - rewrite H. by eexists.
  - destruct (isComponentLoaded env _); [|by eexists].
    rewrite H. run. by eexists.
  - destruct (isComponentLoaded env _); [|by eexists].
    rewrite H. run. rewrite Hst. run. by eexists.
Qed.

Lemma fetchPeerConfiguration_settles env w :
  settings_fetch_settles env ->
  exists e c, _fetchPeerConfiguration env w =
              {| final := w; events := e; result := Val c |} /\
              forallb setup_event e = true.
Proof.
  unfold _fetchPeerConfiguration, settings_fetch_settles.
  intros [H|(st & H)].
  - rewrite H. by do 2 eexists.
  - destruct (isComponentLoaded env _); [|by do 2 eexists].
    rewrite H. run. destruct st as [st|]; [|by do 2 eexists].
    destruct (truthy_opt (stun_server st)); by do 2 eexists.
Qed.

(** Without a transport configuration from the backend and without
    fallback settings, transport setup makes its peer connection from the
    empty configuration. *)
Lemma setup_empty_configuration env w cfg :
  fetchWebRtcConfig env (entityid w) = Fulfilled cfg ->
  cfg ≫= rtc_configuration = None ->
  no_fallback_settings env ->
  let r := setup_transport env w in
  In (EvNewPeerConnection (length (pcs w)) empty_configuration) (events r) /\
  exists p, pcs (final r) = pcs w ++ [p] /\
            configuration p = empty_configuration.
Proof.
  intros Hfetch Hnone Hno.
  unfold setup_transport, alloc_pc, update_pc, addTransceiver. run.
  rewrite Hfetch. run. rewrite Hnone.
  destruct (fetchPeerConfiguration_empty env (set_error None w) Hno)
    as (e & -> & He). run.
  destruct (wants (cfg ≫= create_data_channel)); run.
  all: destruct (is_sendrecv (cfg ≫= audio_direction) && mediaDevices env); run.
  all: try on_getMediaTracks; run.
  all: try (destruct (_localReturnAudioTrack w)); run.
  all: split; [show_in | by eexists].
Qed.

(** C4.  When the configuration fetch gives no transport configuration and
    the fallback yields no settings (component not loaded, no settings, or
    no stun server), the peer connection of the run is constructed from the
    empty [RTCConfiguration]: it has no ICE servers, whatever happens later
    in the run. *)
Theorem empty_configuration_without_settings env w cfg :
  fetchWebRtcConfig env (entityid w) = Fulfilled cfg ->
  cfg ≫= rtc_configuration = None ->
  no_fallback_settings env ->
  let r := _startWebRtc env w in
  In (EvNewPeerConnection (length (pcs w)) empty_configuration) (events r) /\
  exists p, pcs (final r) !! length (pcs w) = Some p /\
            configuration p = empty_configuration /\
            iceServers (configuration p) = None.
Proof.
  intros Hfetch Hnone Hno.
  pose proof (setup_empty_configuration env w cfg Hfetch Hnone Hno) as Hsetup.
  negotiate env w r.
  all: destruct Hsetup as (Hin & q & Hq & Hconf).
  all: try (apply app_inv_head in Hq; injection Hq as ->).
  all: try rewrite Fpcs.
  all: split; [show_in|].
  all: try rewrite Hq.
  all: eexists; split; [by apply list_lookup_middle|]; cbn; by rewrite Hconf.
Qed.

(** ** The audio transceiver *)

(** With two-way audio reported, media devices present and a captured
    track, transport setup returns a peer connection whose transceivers are
    the send-receive one seeded with the first captured track, then the
    receive-only video one; the track is kept, disabled. *)
Lemma setup_two_way_audio env w cfg t0 others :
  fetchWebRtcConfig env (entityid w) = Fulfilled (Some cfg) ->
  audio_direction cfg = Some "sendrecv" ->
  mediaDevices env = true ->
  getUserMedia env = Fulfilled (t0 :: others) ->
  (rtc_configuration cfg = None -> settings_fetch_settles env) ->
  let r := setup_transport env w in
  let first := length (tracks w) in
  result r = Val (length (pcs w)) /\
  _localReturnAudioTrack (final r) = Some first /\
  tracks (final r) = tracks w ++ track_set_enabled false t0 :: others /\
  exists p, pcs (final r) = pcs w ++ [p] /\
    transceivers p = [ {| seed := OfTrack first; direction := sendrecv |};
                       {| seed := OfKind "video"; direction := recvonly |} ].
Proof.
  intros Hfetch Haudio Hmedia Hcapture Hsettles.
  unfold setup_transport, alloc_pc, update_pc, addTransceiver. run.
  rewrite Hfetch. run. rewrite Haudio, Hmedia. run.
  assert (Hconf : exists e c,
    match rtc_configuration cfg with
    | Some c => ret c
    | None => _fetchPeerConfiguration env
    end (set_error None w)
    = {| final := set_error None w; events := e; result := Val c |}).
  { destruct (rtc_configuration cfg); [by do 2 eexists|].
    destruct (fetchPeerConfiguration_settles env (set_error None w))
      as (e & c & -> & _); by eauto. }
  destruct Hconf as (e & c & ->). run.
  destruct (wants (create_data_channel cfg)); run.
  all: unfold getMediaTracks, alloc_tracks; rewrite Hmedia; run.
  all: rewrite Hcapture; run.
  all: repeat split; try done; by eexists.
Qed.

Lemma muted_seed (w' : Widget) l t0 others :
  tracks w' = l ++ track_set_enabled false t0 :: others ->
  kind t0 = "audio" ->
  _localReturnAudioTrack w' = Some (length l) ->
  let seeded := {| seed := OfTrack (length l); direction := sendrecv |} in
  List.filter (is_audio w')
    [seeded; {| seed := OfKind "video"; direction := recvonly |}] = [seeded] /\
  enabled <$> tracks w' !! length l = Some false /\
  mic_html w' = Some {| icon := mdiMicrophoneOff; label := "Turn on mic" |}.
Proof.
  intros Htr Hkind Hloc. unfold mic_html, is_audio, transceiver_kind. cbn.
  rewrite Hloc, Htr, list_lookup_middle by done. cbn. rewrite Hkind.
  rewrite list_lookup_middle by done. done.
Qed.

(** C2.  When the backend reports [audio_direction: "sendrecv"], media
    devices are available and audio capture gives at least one (audio)
    track, the peer connection of the run has exactly one audio
    transceiver; its direction is send-receive and it is seeded with the
    first captured track; that track is kept as the local return track with
    [enabled] false, so the microphone control shows the mic as off. *)
Theorem two_way_audio_starts_muted env w cfg t0 others :
  fetchWebRtcConfig env (entityid w) = Fulfilled (Some cfg) ->
  audio_direction cfg = Some "sendrecv" ->
  mediaDevices env = true ->
  getUserMedia env = Fulfilled (t0 :: others) ->
  kind t0 = "audio" ->
  (rtc_configuration cfg = None -> settings_fetch_settles env) ->
  let r := _startWebRtc env w in
  let first := length (tracks w) in
  let seeded := {| seed := OfTrack first; direction := sendrecv |} in
  exists p, pcs (final r) !! length (pcs w) = Some p /\
    transceivers p =
      [seeded; {| seed := OfKind "video"; direction := recvonly |}] /\
    _localReturnAudioTrack (final r) = Some first /\
    List.filter (is_audio (final r)) (transceivers p) = [seeded] /\
    enabled <$> tracks (final r) !! first = Some false /\
    mic_html (final r) =
      Some {| icon := mdiMicrophoneOff; label := "Turn on mic" |}.
Proof.
  intros Hfetch Haudio Hmedia Hcapture Hkind Hsettles.
  pose proof (setup_two_way_audio env w cfg t0 others
                Hfetch Haudio Hmedia Hcapture Hsettles) as Hsetup.
  negotiate env w r.
  all: destruct Hsetup as (Hres & Hloc & Htr & q & Hq & Htrans);
    try discriminate Hres.
  all: apply app_inv_head in Hq; injection Hq as ->.
  1: rewrite Fpcs.
  all: eexists; split; [by apply list_lookup_middle|]; cbn.
  all: split; [done|]; rewrite Htrans; subst.
  all: split; [congruence|].
  1: rewrite <- app_assoc in Ftracks; cbn in Ftracks.
  1: apply (muted_seed (set_peerConnection (Some (length (pcs w)))
                          after_tracks) (tracks w) t0 (others ++ incoming));
       cbn; congruence.
  all: match goal with
       | |- context [is_audio ?w'] =>
           by apply (muted_seed w' (tracks w) t0 others)
       end.
Qed.

(** ** Restart on identifier change *)

Lemma events_after {A} (e : list Event) (r : Run A) :
  events (after e r) = e ++ events r.
Proof. by destruct r. Qed.

Lemma setup_starts_with_fetch env w :
  exists rest,
    events (setup_transport env w) = EvFetchWebRtcConfig (entityid w) :: rest.
Proof.
  unfold setup_transport. run. rewrite !events_after. cbn. by eexists.
Qed.

Lemma setup_event_not_teardown e :
  setup_event e = true -> teardown_event e = true -> False.
Proof. by destruct e. Qed.

Lemma track_event_not_teardown e :
  track_event e = true -> teardown_event e = true -> False.
Proof. by destruct e. Qed.

(** A run of the negotiation begins by fetching the configuration; the only
    thing it may tear down is the peer connection it has made itself; the
    peer connections and tracks that existed before are left as they
    were. *)
Lemma run_keeps_previous_session env w :
  let r := _startWebRtc env w in
  (exists rest, events r = EvFetchWebRtcConfig (entityid w) :: rest) /\
  (forall e, In e (events r) -> teardown_event e = true ->
             e = EvClosePeerConnection (length (pcs w))) /\
  pcs w `prefix_of` pcs (final r) /\
  tracks w `prefix_of` tracks (final r).
Proof.
  pose proof (setup_starts_with_fetch env w) as Hstart.
  negotiate env w r.
  all: destruct Hstart as (rest & ->).
  all: split; [by eexists|].
  all: split;
    [intros e H Ht; cbn in H; rewrite ?in_app_iff in H; cbn in H;
     cbn in Hsetup_events;
     repeat match type of H with
     | _ \/ _ => destruct H as [H|H]
     | False => destruct H
     | _ = e => subst e; first [discriminate Ht | reflexivity]
     | In e (_ ++ []) => rewrite app_nil_r in H
     | In e ?l =>
         exfalso;
         match goal with
         | Hl : forallb setup_event l = true |- _ =>
             exact (setup_event_not_teardown e
                      (proj1 (forallb_forall _ _) Hl e H) Ht)
         | Hl : forallb track_event l = true |- _ =>
             exact (track_event_not_teardown e
                      (proj1 (forallb_forall _ _) Hl e H) Ht)
         end
     end
    |].
  all: try rewrite Fpcs, Ftracks.
  all: split; [try (by apply prefix_app_r)|].
  all: try (by etrans; [exact Htracks | apply prefix_app_r]).
  all: try done.
  all: by destruct Hpcs as [->|(? & -> & _)]; [|apply prefix_app_r].
Qed.

Lemma not_awaited_run (m : M unit) w :
  not_awaited m w =
  {| final := final (m w); events := events (m w); result := Val tt |}.
Proof. unfold not_awaited. by destruct (m w). Qed.

(** C6 (amended).  When [entityid] changes on a widget that has rendered
    its video element, [updated] starts the negotiation for the new
    identifier at once, without a teardown: the first effect is the
    configuration fetch; no track is stopped, the video element is not
    reset, no release is requested and no peer connection other than the
    new one is closed; the peer connections and tracks of the session that
    existed are left as they were. *)
Theorem restart_without_teardown env changed w el :
  has changed "entityid" = true ->
  _videoEl w = Some el ->
  let r := updated env changed w in
  result r = Val tt /\
  (exists rest, events r = EvFetchWebRtcConfig (entityid w) :: rest) /\
  (forall e, In e (events r) -> teardown_event e = true ->
             e = EvClosePeerConnection (length (pcs w))) /\
  pcs w `prefix_of` pcs (final r) /\
  tracks w `prefix_of` tracks (final r).
Proof.
  intros Hchanged Hvideo r. subst r. unfold updated.
  rewrite Hchanged. unfold bind, get. cbn. rewrite Hvideo.
  rewrite not_awaited_run. cbn.
  split; [done|]. apply run_keeps_previous_session.
Qed.


(** ** Recording and releasing the peer connection *)

Lemma cleanup_closes_recorded env w id :
  In (EvClosePeerConnection id) (events (_cleanUp env w)) ->
  _peerConnection w = Some id.
Proof.
  intros H. clean env w r.
  all: in_events H.
  all: by injection H as ->.
Qed.

(** The run records its peer connection only at its very end, when the
    backend has answered the offer and the answer has been applied. *)
Lemma recorded_only_on_success env w :
  let r := _startWebRtc env w in
  _peerConnection (final r) = _peerConnection w \/
  (_peerConnection (final r) = Some (length (pcs w)) /\
   result r = Val tt /\ _error (final r) = None /\
   (exists payload accepted,
      In (EvHandleWebRtcOffer (entityid w) payload) (events r) /\
      handleWebRtcOffer env (entityid w) payload = Fulfilled accepted) /\
   (exists announced, setRemoteDescription env = Fulfilled announced) /\
   In (EvRemoteDescriptionApplied (length (pcs w))) (events r)).
Proof.
  negotiate env w r.
  2-8: by left.
  right. repeat split; try done.
  - exists (offer +:+ candidates), webRtcAnswer. split; [show_in|done].
  - by eexists.
  - show_in.
Qed.

(** ** Receive-only audio *)

(** When two-way audio is not reported, or there are no media devices,
    transport setup adds a receive-only audio transceiver before the video
    one, captures nothing and leaves the local return track as it was: a
    widget that had none renders no microphone control. *)
Lemma receive_only_audio_when_not_two_way env w cfg :
  fetchWebRtcConfig env (entityid w) = Fulfilled cfg ->
  is_sendrecv (cfg ≫= audio_direction) && mediaDevices env = false ->
  (cfg ≫= rtc_configuration = None -> settings_fetch_settles env) ->
  let r := setup_transport env w in
  result r = Val (length (pcs w)) /\
  tracks (final r) = tracks w /\
  _localReturnAudioTrack (final r) = _localReturnAudioTrack w /\
  (_localReturnAudioTrack w = None -> mic_html (final r) = None) /\
  exists p, pcs (final r) = pcs w ++ [p] /\
    transceivers p = [ {| seed := OfKind "audio"; direction := recvonly |};
                       {| seed := OfKind "video"; direction := recvonly |} ].
Proof.
  intros Hfetch Hnot Hsettles.
  unfold setup_transport, alloc_pc, update_pc, addTransceiver. run.
  rewrite Hfetch. run. rewrite Hnot. run.
  assert (Hconf : exists e c,
    match cfg ≫= rtc_configuration with
    | Some c => ret c
    | None => _fetchPeerConfiguration env
    end (set_error None w)
    = {| final := set_error None w; events := e; result := Val c |}).
  { destruct (cfg ≫= rtc_configuration); [by do 2 eexists|].
    destruct (fetchPeerConfiguration_settles env (set_error None w))
      as (e & c & -> & _); by eauto. }
  destruct Hconf as (e & c & ->). run.
  destruct (wants (cfg ≫= create_data_channel)); run.
  all: repeat split; try done; try (by eexists).
  all: unfold mic_html; cbn; by intros ->.
Qed.

(** C3, on the input where it fails.  Two-way audio is reported and the
    user denies the microphone.  On a fresh widget [getMediaTracks] gives
    no track, [addTransceiver] is called with [undefined] and direction
    send-receive, and the run ends there with a [TypeError]: the peer
    connection has no audio transceiver at all.  On a widget that kept the
    local track of an earlier session, that track is sent again: the audio
    transceiver is send-receive and the microphone control is still
    rendered. *)
Theorem capture_failure_is_not_receive_only :
  let fresh := _startWebRtc env_capture_denied (rendered_widget "camera.a") in
  let again := _startWebRtc env_capture_denied retargeted_widget in
  (result fresh = Throw {| message := Some "TypeError" |} /\
   events fresh =
     [ EvFetchWebRtcConfig "camera.a";
       EvNewPeerConnection 0 empty_configuration;
       EvGetMedia "user" false true;
       EvConsoleWarn (Some "Permission denied");
       EvAddTransceiver 0 None sendrecv ] /\
   transceivers <$> pcs (final fresh) !! 0 = Some []) /\
  (result again = Val tt /\
   transceivers <$> pcs (final again) !! 1 =
     Some [ {| seed := OfTrack 0; direction := sendrecv |};
            {| seed := OfKind "video"; direction := recvonly |} ] /\
   _localReturnAudioTrack (final again) = Some 0 /\
   mic_html (final again) =
     Some {| icon := mdiMicrophoneOff; label := "Turn on mic" |}).
Proof. vm_compute. repeat split; reflexivity. Qed.

(** ** Lifecycle hooks and the microphone control *)

(** [updated] leaves the widget alone unless [entityid] changed and the
    video element is rendered. *)
Lemma updated_is_guarded env changed w :
  has changed "entityid" = false \/ _videoEl w = None ->
  updated env changed w = ret tt w.
Proof.
  unfold updated. intros [H|H].
  - by rewrite H.
  - destruct (has changed "entityid"); [|done]. unfold bind, get. cbn.
    by rewrite H.
Qed.

(** [connectedCallback] starts the negotiation only on a widget that has
    been updated before, that is, on a reconnect. *)
Lemma connected_before_first_update env w :
  hasUpdated w = false -> connectedCallback env w = ret tt w.
Proof. unfold connectedCallback, bind, get. cbn. by intros ->. Qed.

(** [disconnectedCallback] drops the promise of [_cleanUp]: it returns
    whatever the backend answers, leaving the state [_cleanUp] leaves. *)
Lemma disconnected_returns env w :
  result (disconnectedCallback env w) = Val tt /\
  final (disconnectedCallback env w) = final (_cleanUp env w) /\
  events (disconnectedCallback env w) = events (_cleanUp env w).
Proof. unfold disconnectedCallback. by rewrite not_awaited_run. Qed.

(** [toggleMic] flips [enabled] of the local return track, and with it the
    icon and label of the control. *)
Lemma toggleMic_flips w t tr :
  _localReturnAudioTrack w = Some t ->
  tracks w !! t = Some tr ->
  let w' := final (toggleMic w) in
  result (toggleMic w) = Val tt /\
  tracks w' !! t = Some (track_set_enabled (negb (enabled tr)) tr) /\
  mic_html w' =
    Some (if enabled tr
          then {| icon := mdiMicrophoneOff; label := "Turn on mic" |}
          else {| icon := mdiMicrophone; label := "Turn off mic" |}).
Proof.
  intros Hlocal Htrack. unfold toggleMic, bind, get, mic_html. cbn.
  unfold TrackId in *. rewrite Hlocal. cbn. rewrite Hlocal. cbn.
  rewrite !list_lookup_alter_eq, Htrack. cbn.
  split; [done|]. split; [done|]. by destruct (enabled tr).
Qed.

(** * Further properties *)

(** ** Media capture *)

(** [getMediaTracks] never throws.  When the capture asked for ([user]
    media, display media otherwise) gives a stream, its tracks are returned
    in order and become new tracks of the page; when there are no media
    devices or the capture is refused, the failure is logged with
    [console.warn], no track is returned and nothing changes. *)
Theorem getMediaTracks_swallows_failure env media c w :
  let chosen :=
    if String.eqb media "user" then getUserMedia env else getDisplayMedia env in
  let r := getMediaTracks env media c w in
  (forall l, mediaDevices env = true -> chosen = Fulfilled l ->
     result r = Val (seq (length (tracks w)) (length l)) /\
     tracks (final r) = tracks w ++ l /\
     events r = [EvGetMedia media (video c) (audio c)]) /\
  (forall reason, mediaDevices env = true -> chosen = Rejected reason ->
     result r = Val [] /\ final r = w /\
     events r = [EvGetMedia media (video c) (audio c); EvConsoleWarn reason]) /\
  (mediaDevices env = false ->
     result r = Val [] /\ final r = w /\
     events r = [EvConsoleWarn (Some "TypeError")]).
Proof.
  intros chosen r. subst chosen r. unfold getMediaTracks, alloc_tracks.
  destruct (mediaDevices env); run.
  - destruct (if String.eqb media "user" then getUserMedia env
              else getDisplayMedia env) as [l|reason]; run.
    + split; [by intros ? _ [= <-]|].
      split; [by intros ? _ [=]|by intros [=]].
    + split; [by intros ? _ [=]|].
      split; [by intros ? _ [= <-]|by intros [=]].
  - split; [by intros ? [=]|]. split; [by intros ? [=]|done].
Qed.

(** Effects of [getMediaTracks]. *)
Lemma getMediaTracks_capture env c w :
  let r := getMediaTracks env "user" c w in
  forallb capture_event (events r) = true /\
  (forall e, In e (events r) ->
     e = EvGetMedia "user" (video c) (audio c) \/ exists m, e = EvConsoleWarn m) /\
  ((final r = w /\ result r = Val []) \/
   exists t l, getUserMedia env = Fulfilled (t :: l) /\ mediaDevices env = true /\
     final r = set_tracks (tracks w ++ t :: l) w /\
     result r = Val (seq (length (tracks w)) (S (length l)))).
Proof.
  unfold getMediaTracks, alloc_tracks.
  destruct (mediaDevices env); run.
  2: { split; [done|]. split; [|by auto]. intros e [<-|[]]. eauto. }
  destruct (getUserMedia env) as [[|t l]|]; run.
  all: split; [done|]; split;
    [intros e He; cbn in He; in_events He; subst e; eauto|].
  - left. split; [|done]. destruct w; cbn. by rewrite app_nil_r.
  - right. by exists t, l.
  - by left.
Qed.

Ltac on_capture :=
  match goal with
  | |- context [getMediaTracks ?env ?media ?c ?w] =>
      let H := fresh "Hmedia" in
      pose proof (getMediaTracks_capture env c w) as H;
      destruct (getMediaTracks env media c w) as [? capture_events ?];
      cbn in H;
      destruct H as (Hcapture_events & Hcapture_precise &
                     [(-> & ->) | (? & ? & ? & ? & -> & ->)])
  end.

(** ** Configuration resolution, continued *)

(** Once a configuration [c] is resolved with effects [e0], transport setup
    constructs its peer connection from [c]; no settings are fetched after
    that. *)
Lemma setup_with_configuration env w cfg c e0 :
  fetchWebRtcConfig env (entityid w) = Fulfilled cfg ->
  match cfg ≫= rtc_configuration with
  | Some c => ret c
  | None => _fetchPeerConfiguration env
  end (set_error None w)
  = {| final := set_error None w; events := e0; result := Val c |} ->
  let r := setup_transport env w in
  exists p rest,
    pcs (final r) = pcs w ++ [p] /\ configuration p = c /\
    events r = EvFetchWebRtcConfig (entityid w) :: e0 ++
               EvNewPeerConnection (length (pcs w)) c :: rest /\
    ~ In EvFetchWebRtcSettings rest.
Proof.
  intros Hfetch Hconf.
  unfold setup_transport, alloc_pc, update_pc, addTransceiver. run.
  rewrite Hfetch. run. rewrite Hconf. run.
  destruct (wants (cfg ≫= create_data_channel)); run.
  all: destruct (is_sendrecv (cfg ≫= audio_direction) && mediaDevices env); run.
  all: try on_capture; run.
  all: try (destruct (_localReturnAudioTrack w)); run.
  all: do 2 eexists; split; [reflexivity|]; split; [reflexivity|].
  all: split; [reflexivity|].
  all: intros Hset; in_events Hset.
Qed.

(** Find an event in the event list of a run, wherever it is. *)
Ltac find_in_rec :=
  solve [assumption | reflexivity | left; find_in_rec | right; find_in_rec].
Ltac find_in := rewrite ?in_app_iff; cbn; find_in_rec.

(** When the backend sends a transport configuration, the peer connection
    is constructed from it as it is, and the fallback settings are never
    fetched. *)
Theorem backend_configuration_takes_precedence env w cfg c :
  fetchWebRtcConfig env (entityid w) = Fulfilled cfg ->
  cfg ≫= rtc_configuration = Some c ->
  let r := _startWebRtc env w in
  In (EvNewPeerConnection (length (pcs w)) c) (events r) /\
  ~ In EvFetchWebRtcSettings (events r) /\
  exists p, pcs (final r) !! length (pcs w) = Some p /\ configuration p = c.
Proof.
  intros Hfetch Hsome.
  assert (Hconf : match cfg ≫= rtc_configuration with
                  | Some c => ret c
                  | None => _fetchPeerConfiguration env
                  end (set_error None w)
                  = {| final := set_error None w; events := [];
                       result := Val c |}) by (by rewrite Hsome).
  pose proof (setup_with_configuration env w cfg c [] Hfetch Hconf) as Hsetup.
  negotiate env w r.
  all: destruct Hsetup as (q & rest & Hq & Hc & Hev & Hno); subst setup_events.
  all: try (apply app_inv_head in Hq; injection Hq as ->).
  all: try rewrite Fpcs.
  all: split; [find_in|].
  all: split; [intros Hset; cbn in Hset; in_events Hset; by apply Hno|].
  all: try rewrite Hq.
  all: eexists; split; [by apply list_lookup_middle|]; cbn; by rewrite ?Hc.
Qed.

(** When the backend sends no transport configuration, the component
    [rtsp_to_webrtc] is loaded and its settings name a stun server, the
    peer connection is constructed with that server as its only ICE
    server, under the URL ["stun:" + server]. *)
Theorem stun_server_configuration env w cfg st server :
  fetchWebRtcConfig env (entityid w) = Fulfilled cfg ->
  cfg ≫= rtc_configuration = None ->
  isComponentLoaded env "rtsp_to_webrtc" = true ->
  fetchWebRtcSettings env = Fulfilled (Some st) ->
  stun_server st = Some server ->
  truthy server = true ->
  let r := _startWebRtc env w in
  let c := {| iceServers := Some [ {| urls := ["stun:" +:+ server] |} ] |} in
  In EvFetchWebRtcSettings (events r) /\
  In (EvNewPeerConnection (length (pcs w)) c) (events r) /\
  exists p, pcs (final r) !! length (pcs w) = Some p /\ configuration p = c.
Proof.
  intros Hfetch Hnone Hloaded Hsettings Hstun Htruthy.
  assert (Hconf : match cfg ≫= rtc_configuration with
                  | Some c => ret c
                  | None => _fetchPeerConfiguration env
                  end (set_error None w)
                  = {| final := set_error None w;
                       events := [EvFetchWebRtcSettings];
                       result := Val {| iceServers :=
                         Some [ {| urls := ["stun:" +:+ server] |} ] |} |}).
  { rewrite Hnone. unfold _fetchPeerConfiguration. rewrite Hloaded. run.
    rewrite Hsettings. run. rewrite Hstun. cbn. by rewrite Htruthy. }
  pose proof (setup_with_configuration env w cfg _ _ Hfetch Hconf) as Hsetup.
  negotiate env w r.
  all: destruct Hsetup as (q & rest & Hq & Hc & Hev & Hno); subst setup_events.
  all: try (apply app_inv_head in Hq; injection Hq as ->).
  all: try rewrite Fpcs.
  all: split; [find_in|]; split; [find_in|].
  all: try rewrite Hq.
  all: eexists; split; [by apply list_lookup_middle|]; cbn; by rewrite ?Hc.
Qed.

(** A rejected configuration fetch, or a rejected settings fetch where the
    fallback is taken, is not caught: the promise of the run rejects with
    that error, no peer connection is constructed, nothing else is fetched
    or captured, and no error message is set, so that [render] keeps
    showing the video element. *)
Theorem configuration_failure_is_not_reported env w reason :
  fetchWebRtcConfig env (entityid w) = Rejected reason \/
  (exists cfg, fetchWebRtcConfig env (entityid w) = Fulfilled cfg /\
     cfg ≫= rtc_configuration = None /\
     isComponentLoaded env "rtsp_to_webrtc" = true /\
     fetchWebRtcSettings env = Rejected reason) ->
  let r := _startWebRtc env w in
  result r = Throw {| message := reason |} /\
  pcs (final r) = pcs w /\ tracks (final r) = tracks w /\
  _peerConnection (final r) = _peerConnection w /\
  _error (final r) = None /\
  render (final r) = VideoWith (mic_html w) /\
  forallb (fun e => match e with
                    | EvFetchWebRtcConfig _ | EvFetchWebRtcSettings => true
                    | _ => false
                    end) (events r) = true.
Proof.
  intros [Hfetch|(cfg & Hfetch & Hnone & Hloaded & Hsettings)] r; subst r.
  all: unfold _startWebRtc, setup_transport, _fetchPeerConfiguration; run.
  all: rewrite Hfetch; run.
  1: done.
  rewrite Hnone, Hloaded. run. rewrite Hsettings. run. done.
Qed.

(** ** The session that transport setup builds *)

Lemma fetchPeerConfiguration_settings env w :
  let r := _fetchPeerConfiguration env w in
  final r = w /\ forallb settings_event (events r) = true.
Proof.
  unfold _fetchPeerConfiguration.
  destruct (isComponentLoaded env "rtsp_to_webrtc"); [|done].
  destruct (fetchWebRtcSettings env) as [[st|]|]; run; [|done|done].
  destruct (truthy_opt (stun_server st)); done.
Qed.

Ltac on_settings :=
  match goal with
  | |- context [_fetchPeerConfiguration ?env ?w] =>
      let H := fresh "Hfetch" in
      pose proof (fetchPeerConfiguration_settings env w) as H;
      destruct (_fetchPeerConfiguration env w) as [? settings_events [?|?|]];
      cbn in H; destruct H as (-> & Hsettings_events)
  end.

Lemma setup_transport_session env w cfg :
  fetchWebRtcConfig env (entityid w) = Fulfilled cfg ->
  let r := setup_transport env w in
  let two_way := is_sendrecv (cfg ≫= audio_direction) && mediaDevices env in
  (forall p, pcs (final r) !! length (pcs w) = Some p ->
     dataChannels p =
       if wants (cfg ≫= create_data_channel) then ["dataSendChannel"] else []) /\
  (forall media v a, In (EvGetMedia media v a) (events r) ->
     two_way = true /\ media = "user" /\ v = false /\ a = true) /\
  (forall id, result r = Val id ->
     exists p first, pcs (final r) = pcs w ++ [p] /\
       transceivers p =
         [first; {| seed := OfKind "video"; direction := recvonly |}] /\
       if two_way
       then exists t, first = {| seed := OfTrack t; direction := sendrecv |} /\
                      _localReturnAudioTrack (final r) = Some t
       else first = {| seed := OfKind "audio"; direction := recvonly |} /\
            _localReturnAudioTrack (final r) = _localReturnAudioTrack w /\
            tracks (final r) = tracks w).
Proof.
  intros Hfetch.
  unfold setup_transport, alloc_pc, update_pc, addTransceiver. run.
  rewrite Hfetch. run.
  destruct (cfg ≫= rtc_configuration) as [c|]; run;
    [|on_settings; run].
  all: destruct (wants (cfg ≫= create_data_channel)); run.
  all: destruct (is_sendrecv (cfg ≫= audio_direction) && mediaDevices env); run.
  all: try on_capture; run.
  all: try (destruct (_localReturnAudioTrack w) eqn:Hkept); run.
  all: split; [intros q Hq; rewrite ?list_lookup_middle in Hq by done;
               first [by injection Hq as <- | by apply lookup_lt_Some in Hq; lia]|].
  all: split;
    [intros med vd au Hin; cbn in Hin; in_events Hin;
     try (apply Hcapture_precise in Hin as [[= -> -> ->]|[? [=]]]; done)|].
  all: try (by intros ? [=]).
  all: intros ? [= <-]; do 2 eexists; split; [reflexivity|];
    split; [reflexivity|]; first [done | by eexists].
Qed.

Lemma setup_transport_transceivers env w id :
  let r := setup_transport env w in
  result r = Val id ->
  exists p first, pcs (final r) = pcs w ++ [p] /\
    transceivers p =
      [first; {| seed := OfKind "video"; direction := recvonly |}] /\
    (first = {| seed := OfKind "audio"; direction := recvonly |} \/
     exists t, first = {| seed := OfTrack t; direction := sendrecv |} /\
               _localReturnAudioTrack (final r) = Some t).
Proof.
  destruct (fetchWebRtcConfig env (entityid w)) as [cfg|reason] eqn:Hfetch.
  - intros r Hr.
    destruct (setup_transport_session env w cfg Hfetch) as (_ & _ & Hshape).
    destruct (Hshape id Hr) as (p & first & Hp & Ht & Hfirst).
    exists p, first. split; [done|]. split; [done|].
    destruct (is_sendrecv (cfg ≫= audio_direction) && mediaDevices env).
    + right. exact Hfirst.
    + left. by destruct Hfirst.
  - unfold setup_transport. run. rewrite Hfetch. run. done.
Qed.

Lemma setup_capture_only_two_way env w media v a :
  In (EvGetMedia media v a) (events (setup_transport env w)) ->
  exists cfg, fetchWebRtcConfig env (entityid w) = Fulfilled (Some cfg) /\
    audio_direction cfg = Some "sendrecv" /\ mediaDevices env = true /\
    media = "user" /\ v = false /\ a = true.
Proof.
  destruct (fetchWebRtcConfig env (entityid w)) as [cfg|reason] eqn:Hfetch.
  - intros Hin.
    destruct (setup_transport_session env w cfg Hfetch) as (_ & Hmic & _).
    destruct (Hmic media v a Hin) as (Htwo & -> & -> & ->).
    apply andb_true_iff in Htwo as [Hdir Hdev].
    destruct cfg as [cfg|]; [|done]. cbn in Hdir.
    destruct (audio_direction cfg) as [d|] eqn:Hd; [|done].
    cbn in Hdir. apply String.eqb_eq in Hdir as ->.
    by exists cfg.
  - unfold setup_transport. run. rewrite Hfetch. run. intros [[=]|[]].
Qed.

(** The microphone is asked for only when the backend reports two-way
    audio and the browser has media devices, and then for audio of the
    user only, never for video or for the display. *)
Theorem microphone_requested_only_for_two_way env w media v a :
  In (EvGetMedia media v a) (events (_startWebRtc env w)) ->
  exists cfg, fetchWebRtcConfig env (entityid w) = Fulfilled (Some cfg) /\
    audio_direction cfg = Some "sendrecv" /\ mediaDevices env = true /\
    media = "user" /\ v = false /\ a = true.
Proof.
  intros Hin.
  pose proof (setup_capture_only_two_way env w media v a) as Hsetup.
  negotiate env w r.
  all: apply Hsetup. all: cbn in Hin; in_events Hin; done.
Qed.

(** A data channel is created only when the backend asks for one with
    [create_data_channel: true]; it is then the single channel
    ["dataSendChannel"]. *)
Theorem data_channel_only_on_request env w cfg conn :
  fetchWebRtcConfig env (entityid w) = Fulfilled cfg ->
  pcs (final (_startWebRtc env w)) !! length (pcs w) = Some conn ->
  dataChannels conn =
    if wants (cfg ≫= create_data_channel) then ["dataSendChannel"] else [].
Proof.
  intros Hfetch Hp.
  destruct (setup_transport_session env w cfg Hfetch) as (Hdc & _ & _).
  revert Hp. negotiate env w r; intros Hp.
  all: try rewrite Fpcs in Hp.
  all: try (rewrite list_lookup_middle in Hp by done; injection Hp as <-;
            cbn; apply Hdc; by apply list_lookup_middle).
  all: by apply Hdc.
Qed.

(** An offer is created only for a peer connection with exactly two
    transceivers: an audio one, either receive-only or send-receive and
    seeded with the local return track, followed by the receive-only video
    one. *)
Theorem offer_made_for_audio_and_video env w id :
  In (EvCreateOffer id) (events (_startWebRtc env w)) ->
  id = length (pcs w) /\
  exists p first, pcs (final (_startWebRtc env w)) !! id = Some p /\
    transceivers p =
      [first; {| seed := OfKind "video"; direction := recvonly |}] /\
    (first = {| seed := OfKind "audio"; direction := recvonly |} \/
     exists t, first = {| seed := OfTrack t; direction := sendrecv |} /\
               _localReturnAudioTrack (final (_startWebRtc env w)) = Some t).
Proof.
  intros Hin.
  pose proof (setup_transport_transceivers env w) as Hsetup.
  negotiate env w r.
  all: cbn in Hin; in_events Hin; injection Hin as <-.
  all: destruct (Hsetup _ eq_refl) as (q & first & Hq & Ht & Hfirst).
  all: apply app_inv_head in Hq; injection Hq as ->.
  all: split; [done|]; try rewrite Fpcs, Flocal.
  all: eexists _, first; split; [by apply list_lookup_middle|].
  all: split; [done|done].
Qed.

(** When two-way audio is not reported, or the browser has no media
    devices, the session listens only: its audio transceiver is
    receive-only, the microphone is not asked for, the local return track
    is left as it was, and a widget that had none renders no microphone
    control. *)
Theorem receive_only_session env w cfg :
  fetchWebRtcConfig env (entityid w) = Fulfilled cfg ->
  is_sendrecv (cfg ≫= audio_direction) && mediaDevices env = false ->
  (cfg ≫= rtc_configuration = None -> settings_fetch_settles env) ->
  let r := _startWebRtc env w in
  (exists p, pcs (final r) !! length (pcs w) = Some p /\
     transceivers p = [ {| seed := OfKind "audio"; direction := recvonly |};
                        {| seed := OfKind "video"; direction := recvonly |} ]) /\
  _localReturnAudioTrack (final r) = _localReturnAudioTrack w /\
  (_localReturnAudioTrack w = None -> mic_html (final r) = None) /\
  (forall media v a, ~ In (EvGetMedia media v a) (events r)).
Proof.
  intros Hfetch Hnot Hsettles.
  pose proof (receive_only_audio_when_not_two_way env w cfg Hfetch Hnot
                Hsettles) as Hsetup.
  assert (Hquiet : forall media v a,
            ~ In (EvGetMedia media v a) (events (setup_transport env w))).
  { intros media v a Hin.
    destruct (setup_capture_only_two_way env w media v a Hin)
      as (c & Hc & Hdir & Hdev & _).
    rewrite Hfetch in Hc. injection Hc as ->. cbn in Hnot.
    rewrite Hdir, Hdev in Hnot. done. }
  negotiate env w r.
  all: destruct Hsetup as (Hres & Htr & Hloc & Hmic & q & Hq & Htrans);
    try discriminate Hres.
  all: apply app_inv_head in Hq; injection Hq as ->.
  all: try rewrite Fpcs, Flocal.
  all: split; [eexists; split; [by apply list_lookup_middle|done]|].
  all: split; [done|].
  all: split; [intros Hnone; unfold mic_html; cbn; rewrite ?Flocal;
               by rewrite Hloc, Hnone|].
  all: intros med vd au Hin; cbn in Hin; in_events Hin; by eapply Hquiet.
Qed.

(** ** Errors shown to the user *)

(** A run forgets the error message of an earlier run.  The message it
    ends with is set at one of the two failure points only: the backend
    rejecting the offer, or the browser refusing the answer. *)
Theorem error_only_from_failure_points env w :
  let r := _startWebRtc env w in
  _error (final r) = None \/
  (exists payload reason,
     In (EvHandleWebRtcOffer (entityid w) payload) (events r) /\
     handleWebRtcOffer env (entityid w) payload = Rejected reason /\
     _error (final r) =
       Some (js_concat "Failed to start WebRTC stream: " reason)) \/
  (exists reason,
     setRemoteDescription env = Rejected reason /\
     _error (final r) =
       Some (js_concat "Failed to connect WebRTC stream: " reason)).
Proof.
  negotiate env w r.
  1, 4-8: by left.
  - right. right. by eexists.
  - right. left. exists (offer +:+ candidates), signal_error.
    split; [find_in|done].
Qed.

(** ** Candidate gathering *)

Lemma gather_never events : forall acc,
  ~ In None events -> gather events acc = None.
Proof.
  induction events as [|[c|] events IH]; intros acc Hno; cbn.
  - done.
  - apply IH. intros H. apply Hno. by right.
  - exfalso. apply Hno. by left.
Qed.

(** There is no timeout on candidate gathering: as long as no event
    without a candidate arrives, the run does not return, no offer is
    submitted, no error is shown, nothing is recorded, and the peer
    connection, once its listener is installed, stays open. *)
Theorem gathering_without_end_stalls env w :
  ~ In None (icecandidate env) ->
  let r := _startWebRtc env w in
  result r <> Val tt /\
  (forall entity payload, ~ In (EvHandleWebRtcOffer entity payload) (events r)) /\
  (forall id, ~ In (EvClosePeerConnection id) (events r)) /\
  _peerConnection (final r) = _peerConnection w /\
  _error (final r) = None /\
  (In (EvIceListener (length (pcs w))) (events r) ->
   result r = Pending /\
   exists p, pcs (final r) !! length (pcs w) = Some p /\ closed p = false).
Proof.
  intros Hno.
  pose proof (gather_never (icecandidate env) "" Hno) as Hnever.
  negotiate env w r; try discriminate Hnever.
  all: split; [done|].
  all: split; [intros entity payload Hin; cbn in Hin; in_events Hin|].
  all: split; [intros id Hin; cbn in Hin; in_events Hin|].
  all: split; [done|]; split; [done|].
  all: intros Hin; cbn in Hin; in_events Hin.
  split; [done|]. eexists. split; [by apply list_lookup_middle|done].
Qed.

(** ** No retries *)

Lemma filter_none (P Q : Event -> bool) l :
  forallb P l = true -> (forall e, P e = true -> Q e = false) ->
  List.filter Q l = [].
Proof.
  intros Hl HPQ. induction l as [|e l IH]; cbn in *; [done|].
  apply andb_true_iff in Hl as [He Hl]. rewrite (HPQ e He). by apply IH.
Qed.

(** A run submits at most one offer and applies at most one answer:
    nothing is tried again. *)
Theorem no_retries env w :
  let r := _startWebRtc env w in
  length (List.filter submits (events r)) <= 1 /\
  length (List.filter applies (events r)) <= 1.
Proof.
  negotiate env w r.
  all: rewrite ?app_nil_r, ?List.filter_app.
  all: rewrite !(filter_none setup_event _ setup_events) by
         (done || by intros []).
  all: cbn.
  all: try rewrite !(filter_none track_event _ track_events) by
         (done || by intros []).
  all: cbn; lia.
Qed.

(** ** Stream attachment *)

Lemma fire_track_feed pc t w p s l :
  pcs w !! pc = Some p -> trackListener p = Some s ->
  streams w !! s = Some l ->
  let r := fire_track pc t w in
  streams (final r) !! s = Some (l ++ [length (tracks w)]) /\
  _videoEl (final r) = showing s <$> _videoEl w.
Proof.
  intros Hp Hs Hl. unfold fire_track, alloc_track, on_track. run.
  unfold StreamId, PcId in *. rewrite Hp. cbn. rewrite Hs. run.
  destruct (_videoEl w) as [el|] eqn:Hv; run.
  all: rewrite ?Hv, list_lookup_alter_eq.
  all: split; [|done].
  all: exact (f_equal (fmap (fun l0 : list nat => l0 ++ [length (tracks w)])) Hl).
Qed.

Lemma fire_tracks_feed pc incoming : forall w p s l,
  pcs w !! pc = Some p -> trackListener p = Some s ->
  streams w !! s = Some l ->
  let r := for_each incoming (fire_track pc) w in
  streams (final r) !! s
  = Some (l ++ seq (length (tracks w)) (length incoming)) /\
  _videoEl (final r) =
    match incoming with
    | [] => _videoEl w
    | _ :: _ => showing s <$> _videoEl w
    end.
Proof.
  induction incoming as [|t incoming IH]; intros w p s l Hp Hs Hl;
    cbn [for_each].
  - cbn. by rewrite app_nil_r.
  - unfold bind.
    pose proof (fire_track_shape pc t w) as H1.
    pose proof (fire_track_feed pc t w p s l Hp Hs Hl) as H2.
    destruct (fire_track pc t w) as [w1 e1 r1]. cbn in H1, H2.
    destruct H1 as (-> & _ & Hf1). destruct H2 as (Hl1 & Hv1).
    destruct Hf1 as (A1 & A2 & _).
    rewrite <- A1 in Hp.
    specialize (IH w1 p s _ Hp Hs Hl1).
    destruct (for_each incoming (fire_track pc) w1) as [w2 e2 r2].
    cbn in IH |- *. destruct IH as (IH1 & IH2).
    rewrite IH1, IH2, A2, length_app, Hv1. cbn.
    rewrite <- app_assoc, Nat.add_1_r. split; [done|].
    destruct incoming; [done|]. by destruct (_videoEl w).
Qed.

Ltac on_fire_tracks_feed :=
  match goal with
  | |- context [for_each ?l (fire_track ?pc) ?w] =>
      let H := fresh "Hfired" in
      let Hfeed := fresh "Hfeed" in
      pose proof (fire_tracks_shape pc l w) as H;
      epose proof (fire_tracks_feed pc l w _ _ _
                     ltac:(cbn; by apply list_lookup_middle)
                     ltac:(reflexivity)
                     ltac:(cbn; by apply list_lookup_middle)) as Hfeed;
      destruct (for_each l (fire_track pc) w) as [after_tracks track_events ?];
      cbn in H, Hfeed; destruct H as (-> & Htrack_events & H);
      destruct Hfeed as (Fstream & Fshown);
      unfold fired in H; cbn in H;
      destruct H as (Fpcs & Ftracks & Fentity & Fupd & Ferror & Fpc & Fremote &
                     Flocal & Fstreams & Fvideo)
  end.

(** As [negotiate], with the content of the remote stream and the source
    of the video element after the tracks were fired. *)
Ltac negotiate_feeding env w r :=
  let Hr := fresh "Hr" in
  remember (_startWebRtc env w) as r eqn:Hr in *; revert Hr;
  unfold _startWebRtc; unfold bind at 1;
  let Hs := fresh "Hs" in
  let Hval := fresh "Hval" in
  pose proof (setup_transport_shape env w) as Hs;
  destruct (setup_transport env w) as [w1 setup_events [pc|x|]]; cbn in Hs;
  destruct Hs as ((Hentity & Hupd & Hvideo & Hpc & Hremote & Hstreams & Herror)
                  & Hsetup_events & Htracks & Hpcs & Hval);
  destruct w1; cbn in *; subst;
  [ destruct (Hval _ eq_refl) as (-> & p & -> & Hclosed & Hlistener);
    clear Hval Hpcs;
    unfold build_offer, exchange, do_setRemoteDescription, alloc_stream,
      close_pc, update_pc, iceResolver; run;
    destruct (createOffer env) as [offer|?] eqn:Hoffer; run;
    [ destruct (setLocalDescription env) as [?|?] eqn:Hlocal; run;
      [ destruct (gather (icecandidate env) "") as [candidates|] eqn:Hgather;
        run;
        [ match goal with
          | |- context [handleWebRtcOffer env ?e ?sdp] =>
              destruct (handleWebRtcOffer env e sdp) as [webRtcAnswer|signal_error]
                eqn:Hsignal; run
          end;
          [ destruct (setRemoteDescription env) as [incoming|apply_error] eqn:Happly;
            run;
            [ on_fire_tracks_feed; run | ]
          | ]
        | ]
      | ]
    | ]
  | clear Hval | clear Hval ];
  intros ->; cbn in *.

(** When the remote description is applied, the run returns with no error
    and the session recorded: the new peer connection, open and holding the
    answer, and the new remote stream, which holds every announced track,
    in order; with a video element rendered and at least one track
    announced, the element shows that stream. *)
Theorem applied_answer_attaches_every_track env w id :
  In (EvRemoteDescriptionApplied id) (events (_startWebRtc env w)) ->
  let r := _startWebRtc env w in
  let s := length (streams w) in
  exists incoming first,
    setRemoteDescription env = Fulfilled incoming /\
    id = length (pcs w) /\ result r = Val tt /\ _error (final r) = None /\
    _peerConnection (final r) = Some id /\ _remoteStream (final r) = Some s /\
    streams (final r) !! s = Some (seq first (length incoming)) /\
    (forall i t, incoming !! i = Some t ->
                 tracks (final r) !! (first + i) = Some t) /\
    (forall el, _videoEl w = Some el -> incoming <> [] ->
                _videoEl (final r) = Some (showing s el)) /\
    exists p, pcs (final r) !! id = Some p /\ closed p = false /\
              trackListener p = Some s /\ is_Some (remoteDescription p).
Proof.
  intros Hin. negotiate_feeding env w r.
  all: cbn in Hin; in_events Hin. injection Hin as <-.
  exists incoming, (length tracks0).
  repeat split; try done.
  - intros i t Hi. rewrite Ftracks, lookup_app_r by lia.
    by replace (length tracks0 + i - length tracks0) with i by lia.
  - intros el Hel Hne. rewrite Fshown, Hel.
    destruct incoming; [done|]. done.
  - rewrite Fpcs. eexists. split; [by apply list_lookup_middle|]. done.
Qed.

(** ** Teardown, continued *)

Lemma stop_all_lookup ts : forall (l : list MediaStreamTrack) (t : nat) tr,
  l !! t = Some tr ->
  stop_all ts l !! t
  = Some (if existsb (Nat.eqb t) ts then track_stop tr else tr).
Proof.
  induction ts as [|a ts IH]; intros l t tr Hl; [done|].
  change (stop_all (a :: ts) l) with (stop_all ts (alter track_stop a l)).
  cbn [existsb]. destruct (Nat.eqb_spec t a) as [->|Hne].
  - rewrite (IH _ a (track_stop tr)).
    + cbn. by destruct (existsb (Nat.eqb a) ts), tr.
    + by rewrite list_lookup_alter_eq, Hl.
  - rewrite (IH _ t tr); [done|]. by rewrite list_lookup_alter_ne.
Qed.

Lemma stop_all_length ts : forall (l : list MediaStreamTrack),
  length (stop_all ts l) = length l.
Proof.
  induction ts as [|a ts IH]; intros l; [done|].
  change (stop_all (a :: ts) l) with (stop_all ts (alter track_stop a l)).
  by rewrite IH, length_alter.
Qed.

(** Teardown stops exactly the tracks of the recorded remote stream and
    the local return track: each of them ends stopped, every other track
    of the page is left as it was, and none is added or removed. *)
Theorem teardown_stops_session_tracks env w (t : nat) tr :
  tracks w !! t = Some tr ->
  let w' := final (_cleanUp env w) in
  tracks w' !! t
  = Some (if existsb (Nat.eqb t) (stopped_by_teardown w)
          then track_stop tr else tr) /\
  length (tracks w') = length (tracks w).
Proof.
  intros Ht w'. destruct (cleanup_state env w) as (_ & _ & _ & Htr & _).
  subst w'. rewrite Htr. split.
  - by apply stop_all_lookup.
  - apply stop_all_length.
Qed.

Lemma track_stops_only ts : forallb stop_or_reset (EvTrackStop <$> ts) = true.
Proof. by induction ts. Qed.

(** With a peer connection recorded, teardown first stops tracks and
    resets the video element, then closes that peer connection, and last
    asks the backend to release the stream of the widget's current
    [entityid].  The connection is closed and forgotten before the request
    is awaited: this holds whatever the backend answers. *)
Theorem release_closes_then_notifies env w id conn :
  _peerConnection w = Some id ->
  pcs w !! id = Some conn ->
  let r := _cleanUp env w in
  (exists before,
     events r = before ++
                [EvClosePeerConnection id; EvCloseWebRtcStream (entityid w)] /\
     forallb stop_or_reset before = true) /\
  pcs (final r) !! id = Some (pc_close conn) /\
  _peerConnection (final r) = None.
Proof.
  intros Hrec Hconn r.
  destruct (cleanup_state env w) as (_ & _ & Hnone & _ & Hpcs & _).
  fold r in Hnone, Hpcs. rewrite Hrec in Hpcs.
  split; [|split; [|done]].
  - subst r. rewrite cleanup_events, Hrec, app_assoc.
    eexists. split; [reflexivity|].
    rewrite forallb_app, track_stops_only. by destruct (_videoEl w).
  - rewrite Hpcs. unfold PcId in *. rewrite list_lookup_alter_eq.
    exact (f_equal (fmap pc_close) Hconn).
Qed.

(** * Calls that overlap *)

(** ** A call carried through without interruption

    The methods of the first part are the suspended methods with nothing
    happening at their [await]s: same effects in the same order, same final
    state, same outcome. *)

Lemma after_nil {A} (r : Run A) : after [] r = r.
Proof. by destruct r. Qed.

Lemma after_after {A} e1 e2 (r : Run A) :
  after e1 (after e2 r) = after (e1 ++ e2) r.
Proof. destruct r. cbn. by rewrite app_assoc. Qed.

Lemma through_after e (r : Run Task) : through (after e r) = after e (through r).
Proof.
  destruct r as [w' e' [t| |]]; cbn; try done.
  destruct (complete t w'). cbn. by rewrite app_assoc.
Qed.

Lemma through_awaiting w e k :
  through {| final := w; events := e; result := Val (Awaiting k) |}
  = after e (through (k w)).
Proof. reflexivity. Qed.

Lemma through_returned w e :
  through {| final := w; events := e; result := Val Returned |}
  = {| final := w; events := e; result := Val tt |}.
Proof. cbn. by rewrite app_nil_r. Qed.

Lemma through_throw w e x :
  through {| final := w; events := e; result := Throw x |}
  = {| final := w; events := e; result := Throw x |}.
Proof. reflexivity. Qed.

Lemma through_pending w e :
  through {| final := w; events := e; result := Pending |}
  = {| final := w; events := e; result := Pending |}.
Proof. reflexivity. Qed.

Ltac run_async :=
  repeat (unfold bind, attempt, suspend, uninterrupted, ret;
          cbn -[_fetchPeerConfiguration getMediaTracks for_each offer_async
                build_offer exchange through];
          rewrite ?alter_fresh, ?after_nil, ?through_after, ?through_awaiting,
            ?through_returned, ?through_throw, ?through_pending,
            ?after_after).

(** Lines 161-216. *)
Lemma offer_uninterrupted env id w :
  through (offer_async env id w)
  = (let* offer_sdp := build_offer env id in exchange env id offer_sdp) w.
Proof.
  unfold offer_async, signal_async, attach_async, build_offer, exchange,
    do_setRemoteDescription, alloc_stream, close_pc, update_pc, iceResolver.
  run_async.
  destruct (createOffer env) as [offer|?]; run_async; [|done].
  destruct (setLocalDescription env) as [[]|?]; run_async; [|done].
  destruct (gather (icecandidate env) "") as [candidates|]; run_async; [|done].
  destruct (handleWebRtcOffer env _ _) as [webRtcAnswer|?]; run_async; [|done].
  destruct (setRemoteDescription env) as [incoming|?]; run_async; [|done].
  match goal with
  | |- context [for_each incoming ?f ?s] =>
      pose proof (fire_tracks_shape id incoming s) as H;
      destruct (for_each incoming f s) as [? ? ?]; cbn in H;
      destruct H as (-> & _)
  end; run_async. by rewrite ?app_nil_r.
Qed.

Ltac split_setup env :=
  match goal with
  | |- context [isComponentLoaded env ?c] => destruct (isComponentLoaded env c)
  | |- context [fetchWebRtcSettings env] =>
      destruct (fetchWebRtcSettings env) as [[st|]|?]
  | |- context [truthy_opt (stun_server ?st)] =>
      destruct (truthy_opt (stun_server st))
  | |- context [wants ?x] => destruct (wants x)
  | |- context [is_sendrecv ?x] => destruct (is_sendrecv x)
  | |- context [mediaDevices env] => destruct (mediaDevices env)
  | |- context [getUserMedia env] =>
      destruct (getUserMedia env) as [[|? ?]|?]
  | |- context [_localReturnAudioTrack ?w] =>
      destruct (_localReturnAudioTrack w)
  end.

(** [_startWebRtc], lines 120-216. *)
Lemma startWebRtc_uninterrupted env w :
  uninterrupted (_startWebRtc_async env) w = _startWebRtc env w.
Proof.
  unfold _startWebRtc, setup_transport, _startWebRtc_async,
    _fetchPeerConfiguration_async, _fetchPeerConfiguration, connection_async,
    getMediaTracks_async, getMediaTracks, alloc_tracks, alloc_pc, update_pc,
    addTransceiver.
  run_async.
  destruct (fetchWebRtcConfig env (entityid w)) as [web_rtc_config|?];
    run_async; [|done].
  destruct (web_rtc_config ≫= rtc_configuration) as [c|]; run_async.
  all: repeat (split_setup env; run_async).
  all: try done.
  all: try (rewrite offer_uninterrupted; run_async).
  all: done.
Qed.

(** ** Overlapping calls

    Every step of the widget but two leaves the recorded peer connection
    alone and sends no release request: such a step is [harmless].  The
    two are line 215, which a negotiation reaches only past both failure
    points, and lines 263-266 of the teardown.  A task all of whose
    stretches are made of harmless steps, but for a last stretch that
    records under a condition [S], is [orderly]; so is every task of
    [_startWebRtc], with [S] saying that its outcomes allow success. *)

Lemma no_release_app l1 l2 :
  no_release (l1 ++ l2) = no_release l1 && no_release l2.
Proof. apply forallb_app. Qed.

Lemma orderly_bind S {A} (m : M A) (k : A -> M Task) :
  harmless m -> (forall a, orderly S (Awaiting (k a))) ->
  orderly S (Awaiting (bind m k)).
Proof.
  intros Hm Hk w. unfold bind. destruct (Hm w) as [Hpc He].
  destruct (m w) as [w1 e1 [a| |]]; cbn in *; [|by split; [left|]..].
  specialize (Hk a w1). cbn in Hk.
  destruct (k a w1) as [w2 e2 res]; cbn.
  destruct Hk as (Hk1 & Hk2 & Hk3).
  rewrite no_release_app, He, Hk2. repeat split; [|done].
  destruct Hk1 as [Hk1|HS]; [left; congruence|by right].
Qed.

Lemma orderly_ret_bind S {A} (a : A) (k : A -> M Task) :
  orderly S (Awaiting (k a)) -> orderly S (Awaiting (bind (ret a) k)).
Proof.
  intros Hk w. specialize (Hk w). unfold bind. cbn in *.
  by destruct (k a w).
Qed.

Lemma orderly_suspend S (k : M Task) :
  orderly S (Awaiting k) -> orderly S (Awaiting (suspend k)).
Proof. intros Hk w. cbn. repeat split; [by left|done]. Qed.

Lemma orderly_returned S : orderly S (Awaiting (ret Returned)).
Proof. intros w. cbn. repeat split. by left. Qed.

Lemma orderly_if S (b : bool) (m1 m2 : M Task) :
  orderly S (Awaiting m1) -> orderly S (Awaiting m2) ->
  orderly S (Awaiting (if b then m1 else m2)).
Proof. by destruct b. Qed.

Lemma harmless_bind {A B} (m : M A) (k : A -> M B) :
  harmless m -> (forall a, harmless (k a)) -> harmless (bind m k).
Proof.
  intros Hm Hk w. unfold bind. destruct (Hm w) as [Hpc He].
  destruct (m w) as [w1 e1 [a| |]]; cbn in *; [|done..].
  destruct (Hk a w1) as [Hpc2 He2].
  destruct (k a w1) as [w2 e2 res]; cbn in *.
  rewrite no_release_app, He, He2. split; [congruence|done].
Qed.

Lemma harmless_ret {A} (a : A) : harmless (ret a).
Proof. by intros w. Qed.

Lemma harmless_get {A} (f : Widget -> A) : harmless (get f).
Proof. by intros w. Qed.

Lemma harmless_throw {A} x : harmless (@throw A x).
Proof. by intros w. Qed.

Lemma harmless_never {A} : harmless (@never A).
Proof. by intros w. Qed.

Lemma harmless_await {A} (o : Outcome A) : harmless (await o).
Proof. by destruct o. Qed.

Lemma harmless_emit e : is_release e = false -> harmless (emit e).
Proof. intros He w. cbn. unfold no_release. cbn. by rewrite He. Qed.

Lemma harmless_modify f :
  (forall w, _peerConnection (f w) = _peerConnection w) ->
  harmless (modify f).
Proof. intros Hf w. by split; [apply Hf|]. Qed.

Lemma harmless_if {A} (b : bool) (m1 m2 : M A) :
  harmless m1 -> harmless m2 -> harmless (if b then m1 else m2).
Proof. by destruct b. Qed.

Lemma harmless_for_each {A} (l : list A) (f : A -> M unit) :
  (forall a, harmless (f a)) -> harmless (for_each l f).
Proof.
  intros Hf. induction l as [|a l IH]; cbn [for_each].
  - apply harmless_ret.
  - apply harmless_bind; [apply Hf|by intros _].
Qed.

Create HintDb harmless.
#[local] Hint Resolve harmless_ret harmless_get harmless_throw harmless_never
  harmless_await harmless_if : harmless.
#[local] Hint Extern 1 (harmless (emit _)) =>
  apply harmless_emit; reflexivity : harmless.
#[local] Hint Extern 1 (harmless (modify _)) =>
  apply harmless_modify; intros []; reflexivity : harmless.
#[local] Hint Extern 2 (harmless (bind _ _)) =>
  apply harmless_bind; [|intros ?] : harmless.
#[local] Hint Extern 2 (harmless (for_each _ _)) =>
  apply harmless_for_each; intros ? : harmless.

Ltac harmlessness := auto 20 with harmless.

Lemma harmless_update_pc id f : harmless (update_pc id f).
Proof. unfold update_pc. harmlessness. Qed.

Lemma harmless_alloc_pc c : harmless (alloc_pc c).
Proof. unfold alloc_pc. harmlessness. Qed.

Lemma harmless_alloc_tracks l : harmless (alloc_tracks l).
Proof. unfold alloc_tracks. harmlessness. Qed.

Lemma harmless_alloc_stream : harmless alloc_stream.
Proof. unfold alloc_stream. harmlessness. Qed.

#[local] Hint Resolve harmless_update_pc harmless_alloc_pc
  harmless_alloc_tracks harmless_alloc_stream : harmless.

Lemma harmless_close_pc id : harmless (close_pc id).
Proof. unfold close_pc. harmlessness. Qed.

Lemma harmless_addTransceiver id arg d : harmless (addTransceiver id arg d).
Proof.
  unfold addTransceiver. apply harmless_bind; [harmlessness|intros _].
  destruct arg as [[t|k]|]; harmlessness.
Qed.

Lemma harmless_fire_track id t : harmless (fire_track id t).
Proof.
  unfold fire_track, alloc_track, on_track.
  apply harmless_bind; [harmlessness|intros track].
  apply harmless_bind; [harmlessness|intros [s|]]; [|harmlessness].
  apply harmless_bind; [harmlessness|intros _].
  apply harmless_bind; [harmlessness|intros _].
  apply harmless_bind; [harmlessness|intros [el|]]; harmlessness.
Qed.

Lemma harmless_iceResolver l : harmless (iceResolver l).
Proof. unfold iceResolver. destruct (gather l ""); harmlessness. Qed.

#[local] Hint Resolve harmless_close_pc harmless_addTransceiver
  harmless_fire_track harmless_iceResolver : harmless.

(** A stretch that ends at once: the awaited promise rejected or never
    settles. *)
Ltac stops := let w := fresh "w" in intros w; cbn; repeat split; by left.

(** Sequencing after a harmless step. *)
Ltac then_orderly :=
  repeat lazymatch goal with
         | |- orderly _ (Awaiting (ret Returned)) => apply orderly_returned
         | |- orderly _ (Awaiting (suspend _)) => apply orderly_suspend
         | |- orderly _ (Awaiting (bind (ret _) _)) => apply orderly_ret_bind
         | |- orderly _ (Awaiting (bind never _)) => stops
         | |- orderly _ (Awaiting (bind (throw _) _)) => stops
         | |- orderly _ (Awaiting (bind _ _)) =>
             apply orderly_bind; [harmlessness|intros ?]
         end.

Lemma record_orderly (S : Prop) id :
  S ->
  orderly S (Awaiting (modify (set_peerConnection (Some id)) >> ret Returned)).
Proof. intros HS w. cbn. repeat split. by right. Qed.

(** From line 209 on. *)
Lemma attach_orderly (S : Prop) env id sdp :
  (forall incoming, setRemoteDescription env = Fulfilled incoming -> S) ->
  orderly S (Awaiting (attach_async env id sdp)).
Proof.
  intros HS. unfold attach_async.
  destruct (setRemoteDescription env) as [incoming|?]; [|then_orderly].
  do 3 (apply orderly_bind; [harmlessness|intros ?]).
  apply orderly_suspend, record_orderly. by eapply HS.
Qed.

(** From line 184 on. *)
Lemma signal_orderly (S : Prop) env id entity offer_sdp :
  (forall webRtcAnswer incoming,
     handleWebRtcOffer env entity offer_sdp = Fulfilled webRtcAnswer ->
     setRemoteDescription env = Fulfilled incoming -> S) ->
  orderly S (Awaiting (signal_async env id entity offer_sdp)).
Proof.
  intros HS. unfold signal_async.
  destruct (handleWebRtcOffer env entity offer_sdp) as [webRtcAnswer|?];
    [|then_orderly].

  do 5 (apply orderly_bind; [harmlessness|intros ?]).

  apply orderly_suspend, attach_orderly. by eauto.
Qed.

(** From line 161 on. *)
Lemma offer_orderly (S : Prop) env id :
  (succeeds env -> S) ->
  orderly S (Awaiting (offer_async env id)).
Proof.
  intros HS. unfold offer_async, iceResolver.
  apply orderly_bind; [harmlessness|intros _]. apply orderly_suspend.
  destruct (createOffer env) as [offer|?] eqn:Hoffer; [|stops].
  destruct (gather (icecandidate env) "") as [candidates|] eqn:Hgather.
  - cbn [await]. then_orderly. apply signal_orderly.
    intros webRtcAnswer incoming Hsignal Happly. apply HS.
    by eexists offer, candidates, _, webRtcAnswer, incoming.
  - cbn [await]. then_orderly.
Qed.

Lemma harmless_keep_first (captured : list TrackId) :
  harmless
    match captured with
    | t0 :: _ =>
        modify (set_localReturnAudioTrack (Some t0)) >>
        modify (fun w =>
          set_tracks (alter (track_set_enabled false) t0 (tracks w)) w)
    | [] => ret tt
    end.
Proof. destruct captured; harmlessness. Qed.

#[local] Hint Resolve harmless_keep_first : harmless.

(** From line 130 on. *)
Lemma connection_orderly (S : Prop) env web_rtc_config c :
  (succeeds env -> S) ->
  orderly S (Awaiting (connection_async env web_rtc_config c)).
Proof.
  intros HS. pose proof (offer_orderly S env) as Hoffer.
  unfold connection_async, getMediaTracks_async.
  apply orderly_bind; [harmlessness|intros id].
  apply orderly_bind; [harmlessness|intros _].
  cbv zeta. rewrite String.eqb_refl.
  destruct (is_sendrecv _ && mediaDevices env).
  - destruct (mediaDevices env).
    + apply orderly_bind; [harmlessness|intros _]. apply orderly_suspend.
      destruct (getUserMedia env) as [stream|?].
      all: then_orderly; by apply Hoffer.
    + then_orderly; by apply Hoffer.
  - then_orderly; by apply Hoffer.
Qed.

(** Every stretch of a negotiation leaves the recorded peer connection as
    it finds it and sends no release request, except that the last stretch
    of a negotiation that got past both failure points records the peer
    connection of that negotiation. *)
Lemma startWebRtc_orderly (S : Prop) env :
  (succeeds env -> S) ->
  orderly S (Awaiting (_startWebRtc_async env)).
Proof.
  intros HS. pose proof (connection_orderly S env) as Hconnection.
  unfold _startWebRtc_async, _fetchPeerConfiguration_async.
  apply orderly_bind; [harmlessness|intros _].
  apply orderly_bind; [harmlessness|intros entity].
  apply orderly_bind; [harmlessness|intros _]. apply orderly_suspend.
  apply orderly_bind; [harmlessness|intros web_rtc_config].
  destruct (web_rtc_config ≫= rtc_configuration); [by apply Hconnection|].
  destruct (negb (isComponentLoaded env "rtsp_to_webrtc")).
  { apply orderly_suspend. by apply Hconnection. }
  apply orderly_bind; [harmlessness|intros _]. apply orderly_suspend.
  apply orderly_bind; [harmlessness|intros [st|]].
  - destruct (negb (truthy_opt (stun_server st)));
      apply orderly_suspend; by apply Hconnection.
  - apply orderly_suspend; by apply Hconnection.
Qed.

Lemma no_release_stops ts : no_release (EvTrackStop <$> ts) = true.
Proof. by induction ts. Qed.

(** The first stretch of a teardown forgets the recorded peer connection,
    and sends the release request only if there was one; the rest of the
    teardown changes nothing. *)
Lemma cleanUp_stretch (S : Prop) env w :
  match _cleanUp_async env w with
  | {| final := w'; events := e; result := res |} =>
      _peerConnection w' = None /\
      (is_Some (_peerConnection w) \/ no_release e = true) /\
      match res with
      | Val t => orderly S t
      | _ => True
      end
  end.
Proof.
  unfold _cleanUp_async, close_pc, update_pc, stop_track. run.
  destruct (_remoteStream w) as [remote|] eqn:Hremote; run;
  rewrite ?stop_tracks_run; run;
  destruct (_localReturnAudioTrack w) as [local|] eqn:Hlocal; run;
  destruct (_videoEl w) as [el|] eqn:Hvideo; run;
  destruct (_peerConnection w) as [recorded|] eqn:Hrecorded; run.
  all: split; [done|]; split; [first [by left; eexists|right]|].
  all: rewrite ?no_release_app, ?no_release_stops; try done.
  all: intros w0; destruct (closeWebRtcStream env (entityid w)) as [[]|?].
  all: cbn; repeat split; by left.
Qed.


Lemma connected_orderly (S : Prop) env :
  (succeeds env -> S) ->
  orderly S (Awaiting (connectedCallback_async env)).
Proof.
  intros HS. unfold connectedCallback_async.
  apply orderly_bind; [harmlessness|intros updated_once].
  apply orderly_if; [by apply startWebRtc_orderly|apply orderly_returned].
Qed.

Lemma updated_orderly (S : Prop) env changed :
  (succeeds env -> S) ->
  orderly S (Awaiting (updated_async env changed)).
Proof.
  intros HS. unfold updated_async.
  apply orderly_if; [apply orderly_returned|].
  apply orderly_bind; [harmlessness|intros [el|]].
  - by apply startWebRtc_orderly.
  - apply orderly_returned.
Qed.

(** A stretch that keeps the page in order. *)
Lemma settle_ok (S : Prop) (r : Run Task) x others :
  page_ok S x ->
  Forall (fun k => orderly S (Awaiting k)) others ->
  (is_Some (_peerConnection (final r)) ->
   is_Some (_peerConnection (widget x)) \/ S) ->
  (is_Some (_peerConnection (widget x)) \/ no_release (events r) = true) ->
  match result r with Val t => orderly S t | _ => True end ->
  page_ok S (settle r others (trace x)) /\
  (S \/ no_release (trace x) = true ->
   S \/ no_release (trace (settle r others (trace x))) = true).
Proof.
  intros (Hrec & _) Hothers Hfinal Hevents Hresult.
  unfold page_ok, settle. cbn. split; [split|].
  - intros Hsome. destruct (Hfinal Hsome) as [H|H]; auto.
  - destruct (result r) as [[|k]| |]; try done.
    apply Forall_app. split; [done|]. by apply Forall_singleton.
  - intros [HS|Htrace]; [by left|].
    destruct Hevents as [Hsome|Hevents]; [left; auto|].
    right. by rewrite no_release_app, Htrace, Hevents.
Qed.

Lemma orderly_settle_ok (S : Prop) (k : M Task) x others :
  page_ok S x ->
  Forall (fun k => orderly S (Awaiting k)) others ->
  orderly S (Awaiting k) ->
  page_ok S (settle (k (widget x)) others (trace x)) /\
  (S \/ no_release (trace x) = true ->
   S \/ no_release (trace (settle (k (widget x)) others (trace x))) = true).
Proof.
  intros Hx Hothers Hk. specialize (Hk (widget x)).
  destruct (k (widget x)) as [w' e res] eqn:Hr.
  destruct Hk as (Hpc & He & Hres).
  apply settle_ok; cbn; try done.
  - intros Hsome. destruct Hpc as [Hpc|HS]; [left; by rewrite <- Hpc|by right].
  - by right.
Qed.

(** Whatever happens next, the page stays in order. *)
Lemma step_ok (S : Prop) x a :
  page_ok S x -> keeps_recorded a ->
  (forall env, In env (runs [a]) -> succeeds env -> S) ->
  page_ok S (step x a) /\
  (S \/ no_release (trace x) = true ->
   S \/ no_release (trace (step x a)) = true).
Proof.
  intros Hx Hkeep HS. pose proof Hx as (Hrec & Hpool).
  destruct a as [env|env|env changed|i|h]; cbn [step].
  - apply orderly_settle_ok; [done..|].
    apply connected_orderly, HS. by left.
  - pose proof (cleanUp_stretch S env (widget x)) as Hc.
    unfold disconnectedCallback_async.
    destruct (_cleanUp_async env (widget x)) as [w' e res].
    destruct Hc as (Hnone & He & Hres).
    apply settle_ok; cbn; try done.
    rewrite Hnone. by intros [? ?].
  - apply orderly_settle_ok; [done..|].
    apply updated_orderly, HS. by left.
  - destruct (suspended x !! i) as [k|] eqn:Hi; [|done].
    apply orderly_settle_ok; [done| |].
    + by apply Forall_delete.
    + by eapply (Forall_lookup_1 _ _ _ _ Hpool Hi).
  - cbn in Hkeep. unfold page_ok. cbn. by rewrite Hkeep.
Qed.

Lemma runs_cons a acts : runs (a :: acts) = runs [a] ++ runs acts.
Proof. unfold runs. cbn. by destruct a. Qed.

Lemma exec_ok (S : Prop) acts : forall x,
  page_ok S x -> Forall keeps_recorded acts ->
  (forall env, In env (runs acts) -> succeeds env -> S) ->
  page_ok S (exec acts x) /\
  (S \/ no_release (trace x) = true ->
   S \/ no_release (trace (exec acts x)) = true).
Proof.
  induction acts as [|a acts IH]; intros x Hx Hkeep HS; [done|].
  apply Forall_cons in Hkeep as [Ha Hacts].
  change (exec (a :: acts) x) with (exec acts (step x a)).
  destruct (step_ok S x a) as [Hstep Htrace]; [done..| |].
  { intros env Hin. apply HS. rewrite runs_cons, in_app_iff. by left. }
  destruct (IH (step x a)) as [Hexec Htrace']; [done..| |].
  { intros env Hin. apply HS. rewrite runs_cons, in_app_iff. by right. }
  by auto.
Qed.

(** [_cleanUp], carried through, is the method of the first part. *)
Lemma cleanUp_uninterrupted env w :
  uninterrupted (_cleanUp_async env) w = _cleanUp env w.
Proof.
  unfold _cleanUp_async, _cleanUp, close_pc, update_pc, stop_track.
  run_async.
  destruct (_remoteStream w) as [remote|]; run_async;
  rewrite ?stop_tracks_run; run_async;
  destruct (_localReturnAudioTrack w) as [local|]; run_async;
  destruct (_videoEl w) as [el|]; run_async;
  destruct (_peerConnection w) as [recorded|]; run_async.
  all: try destruct (closeWebRtcStream env (entityid w)) as [[]|?]; run_async.
  all: rewrite ?app_nil_r, <- ?app_assoc; done.
Qed.

(** Outcomes with which a negotiation is stopped at a failure point cannot
    succeed. *)
Lemma refused_cannot_succeed env :
  (forall entity offer_sdp, exists reason,
     handleWebRtcOffer env entity offer_sdp = Rejected reason) \/
  (exists reason, setRemoteDescription env = Rejected reason) ->
  ~ succeeds env.
Proof.
  intros [Hsignal|[reason Happly]]
    (offer & candidates & entity & webRtcAnswer & incoming & _ & _ & H1 & H2).
  - destruct (Hsignal entity (offer +:+ candidates)) as [reason Hr]. congruence.
  - congruence.
Qed.

(** ** Recording and releasing, with calls that overlap *)

(** C10 (amended).  Teardown asks the backend to release the stream exactly
    when a peer connection is recorded.  A negotiation carried through
    records its peer connection only at its end, after the backend has
    answered the offer and the answer has been applied, and leaves the
    field as it was otherwise.  Negotiations may overlap: the hooks do not
    await [_startWebRtc] (lines 101 and 117), which hands control back at
    every [await].  So take a page on which no peer connection is recorded
    and no call is suspended, and let anything happen in any order: hooks
    are called, suspended calls go on, the page or the browser changes the
    state short of the private field [_peerConnection].  A peer connection
    is then recorded only if one of the negotiations that were started can
    get past both failure points.  If none can, no peer connection is
    recorded, a teardown fulfils and closes no peer connection, and no
    release request is sent, by this teardown or, on a trace that had none
    to begin with, by anything before it.  That
    one negotiation was stopped at a failure point is not enough for this:
    a peer connection recorded by an earlier or an overlapping negotiation
    is closed and released by the next teardown. *)
Theorem release_follows_recording acts x env env2 w :
  _peerConnection (widget x) = None ->
  suspended x = [] ->
  Forall keeps_recorded acts ->
  let x' := exec acts x in
  let c := _cleanUp env2 (widget x') in
  let r := _startWebRtc env w in
  ((exists e, In (EvCloseWebRtcStream e) (events (_cleanUp env2 w))) <->
   is_Some (_peerConnection w)) /\
  (_peerConnection (final r) = _peerConnection w \/
   (_peerConnection (final r) = Some (length (pcs w)) /\
    result r = Val tt /\ _error (final r) = None /\
    (exists payload accepted,
       In (EvHandleWebRtcOffer (entityid w) payload) (events r) /\
       handleWebRtcOffer env (entityid w) payload = Fulfilled accepted) /\
    (exists announced, setRemoteDescription env = Fulfilled announced) /\
    In (EvRemoteDescriptionApplied (length (pcs w))) (events r))) /\
  (is_Some (_peerConnection (widget x')) ->
   exists started, In started (runs acts) /\ succeeds started) /\
  ((forall started, In started (runs acts) -> ~ succeeds started) ->
   _peerConnection (widget x') = None /\
   result c = Val tt /\
   (forall e, In e (events c) ->
      (forall id, e <> EvClosePeerConnection id) /\
      (forall entity, e <> EvCloseWebRtcStream entity)) /\
   (no_release (trace x) = true -> no_release (trace x') = true)).
Proof.
  intros Hnone Hpool Hkeep x' c r.
  split; [apply release_sent_iff_recorded|].
  split; [apply recorded_only_on_success|].
  set (S := exists started, In started (runs acts) /\ succeeds started).
  destruct (exec_ok S acts x) as ((Hrec & _) & Htrace); [|done| |].
  { split; [rewrite Hnone; by intros [? ?]|rewrite Hpool; constructor]. }
  { intros started Hin Hs. by exists started. }
  split; [done|].
  intros Hfail.
  assert (HnotS : ~ S) by (intros (started & Hin & Hs); by eapply Hfail).
  assert (Hstill : _peerConnection (widget x') = None).
  { destruct (_peerConnection (widget x')) as [id|] eqn:Hid; [|done].
    exfalso. apply HnotS, Hrec. fold x'. rewrite Hid. by eexists. }
  split; [done|]. split; [by apply cleanup_result|]. split.
  - intros e He. split.
    + intros id ->. apply cleanup_closes_recorded in He. congruence.
    + intros entity ->.
      assert (is_Some (_peerConnection (widget x'))) as [? ?]; [|congruence].
      apply (release_sent_iff_recorded env2). by eexists.
  - intros Hx. destruct Htrace as [HS|H]; [by right|done|done].
Qed.

(** ** What has happened when a hook returns *)

(** [_startWebRtc] hands control back at line 124: by then it has cleared
    [_error] and asked the backend for the configuration of the current
    [entityid], nothing else, and the rest of the negotiation is still to
    come. *)
Lemma startWebRtc_first_stretch env w :
  exists rest,
    _startWebRtc_async env w
    = {| final := set_error None w;
         events := [EvFetchWebRtcConfig (entityid w)];
         result := Val (Awaiting rest) |}.
Proof. by eexists. Qed.


(** Carried through without interruption, the hooks do what the methods
    they call do. *)
Lemma hooks_uninterrupted env changed w :
  (let r := uninterrupted (connectedCallback_async env) w in
   final r = final (connectedCallback env w) /\
   events r = events (connectedCallback env w)) /\
  (let r := uninterrupted (updated_async env changed) w in
   final r = final (updated env changed w) /\
   events r = events (updated env changed w)) /\
  (let r := uninterrupted (disconnectedCallback_async env) w in
   final r = final (disconnectedCallback env w) /\
   events r = events (disconnectedCallback env w)).
Proof.
  pose proof (startWebRtc_uninterrupted env w) as Hstart.
  pose proof (cleanUp_uninterrupted env w) as Hclean.
  unfold uninterrupted in *.
  unfold connectedCallback_async, connectedCallback, updated_async, updated,
    disconnectedCallback_async, disconnectedCallback, bind, get.
  cbn -[through _cleanUp_async _startWebRtc_async _startWebRtc _cleanUp].
  rewrite !not_awaited_run, Hclean.
  split; [|split; [|done]].
  - destruct (hasUpdated w); [|done].
    cbn -[through _cleanUp_async _startWebRtc_async _startWebRtc _cleanUp].
    by rewrite !not_awaited_run, through_after, after_nil, Hstart.
  - destruct (has changed "entityid"); [|done].
    cbn -[through _cleanUp_async _startWebRtc_async _startWebRtc _cleanUp].
    destruct (_videoEl w); [|done].
    cbn -[through _cleanUp_async _startWebRtc_async _startWebRtc _cleanUp].
    by rewrite !not_awaited_run, through_after, after_nil, Hstart.
Qed.

(** When [disconnectedCallback] returns, the teardown is done but for the
    answer to the release request: every effect of [_cleanUp] has happened
    and the state is final; what is left of the call changes nothing and
    does nothing. *)
Theorem teardown_done_when_hook_returns env w :
  let r := disconnectedCallback_async env w in
  final r = final (_cleanUp env w) /\
  events r = events (_cleanUp env w) /\
  match result r with
  | Val Returned => _peerConnection w = None
  | Val (Awaiting rest) =>
      is_Some (_peerConnection w) /\
      forall w', final (rest w') = w' /\ events (rest w') = [] /\
                 match result (rest w') with
                 | Val (Awaiting _) => False
                 | _ => True
                 end
  | _ => False
  end.
Proof.
  unfold disconnectedCallback_async, _cleanUp_async, _cleanUp, close_pc,
    update_pc, stop_track. run.
  destruct (_remoteStream w) as [remote|]; run;
  rewrite ?stop_tracks_run; run;
  destruct (_localReturnAudioTrack w) as [local|]; run;
  destruct (_videoEl w) as [el|]; run;
  destruct (_peerConnection w) as [recorded|]; run.
  all: try destruct (closeWebRtcStream env (entityid w)) as [[]|?]; run.
  all: rewrite ?app_nil_r, <- ?app_assoc.
  all: repeat split; try done; by eexists.
Qed.

(** ** The video element after a render *)

Lemma rendered_keeps_recorded : keeps_recorded (Host rendered).
Proof. intros w. by destruct w. Qed.

(** Once an error is shown, the video element is no longer in the page,
    and a change of [entityid] does not start a negotiation: [updated]
    returns at line 115, whatever the backend would answer. *)
Theorem alert_blocks_restart env changed w :
  truthy_opt (_error w) = true ->
  _videoEl (rendered w) = None /\
  updated_async env changed (rendered w) = ret Returned (rendered w) /\
  updated env changed (rendered w) = ret tt (rendered w).
Proof.
  intros Herr.
  assert (Hnone : _videoEl (rendered w) = None).
  { unfold rendered, render. rewrite Herr. by destruct w. }
  split; [done|]. split.
  - unfold updated_async. destruct (has changed "entityid"); [|done].
    unfold bind, get. cbn -[rendered]. by rewrite Hnone.
  - apply updated_is_guarded. by right.
Qed.

(** ** The microphone control, continued *)


(** Toggling twice gives back the state before the first toggle. *)
Theorem toggleMic_twice w t :
  _localReturnAudioTrack w = Some t ->
  final (toggleMic (final (toggleMic w))) = w.
Proof.
  intros Hlocal. unfold toggleMic, bind, get. cbn.
  rewrite Hlocal. cbn. rewrite Hlocal. cbn.
  rewrite list_alter_alter_eq.
  rewrite (list_alter_ext _ id _ (tracks w) t); [|by intros [] ?; cbn; rewrite negb_involutive|done].
  rewrite list_alter_id by done.
  by destruct w.
Qed.

(** * Instances and counterexamples *)

Ltac pick_event := vm_compute; repeat first [solve [left; reflexivity] | right].

(** The payload submitted in the example environments. *)
Lemma example_payload :
  "v=0" +:+ candidate_lines ["candidate:1"; "candidate:2"]
  = offer_of_example.
Proof. reflexivity. Qed.

Lemma signaling_failure_aborts_witness :
  let w := rendered_widget "camera.a" in
  let r := _startWebRtc env_signal_refused w in
  In (EvHandleWebRtcOffer "camera.a" offer_of_example) (events r) /\
  handleWebRtcOffer env_signal_refused "camera.a" offer_of_example
  = Rejected (Some "Camera is offline") /\
  render (final r) = Alert "Failed to start WebRTC stream: Camera is offline" /\
  closed <$> pcs (final r) !! 0 = Some true.
Proof.
  intros w r.
  assert (H1 : In (EvHandleWebRtcOffer (entityid w) offer_of_example)
                  (events (_startWebRtc env_signal_refused w)))
    by pick_event.
  assert (H2 : handleWebRtcOffer env_signal_refused (entityid w)
                 offer_of_example = Rejected (Some "Camera is offline"))
    by reflexivity.
  destruct (signaling_failure_aborts env_signal_refused w offer_of_example
              (Some "Camera is offline") H1 H2)
    as (_ & _ & Hrender & (p & Hp & Hclosed & _) & _).
  split; [exact H1|]. split; [exact H2|]. split; [exact Hrender|].
  rewrite <- Hclosed. exact (f_equal (fmap closed) Hp).
Defined.

Lemma remote_description_failure_aborts_witness :
  let w := rendered_widget "camera.a" in
  let r := _startWebRtc env_answer_refused w in
  In (EvSetRemoteDescription 0 "v=0 answer") (events r) /\
  setRemoteDescription env_answer_refused = Rejected (Some "Invalid SDP") /\
  render (final r) = Alert "Failed to connect WebRTC stream: Invalid SDP" /\
  _peerConnection (final r) = None.
Proof.
  intros w r.
  assert (H1 : In (EvSetRemoteDescription 0 "v=0 answer")
                  (events (_startWebRtc env_answer_refused w)))
    by pick_event.
  assert (H2 : setRemoteDescription env_answer_refused
               = Rejected (Some "Invalid SDP")) by reflexivity.
  destruct (remote_description_failure_aborts env_answer_refused w 0
              "v=0 answer" (Some "Invalid SDP") H1 H2)
    as (_ & _ & _ & Hrender & _ & _ & Hrecorded & _).
  split; [exact H1|]. split; [exact H2|]. split; [exact Hrender|].
  exact Hrecorded.
Defined.

Lemma no_attachment_before_remote_description_witness :
  let r := _startWebRtc env_ok (rendered_widget "camera.a") in
  events r = removelast (events r) ++ EvVideoSrcObject 0 :: [] /\
  In (EvRemoteDescriptionApplied 0) (removelast (events r)).
Proof.
  intros r.
  assert (H : events (_startWebRtc env_ok (rendered_widget "camera.a"))
              = removelast (events r) ++ EvVideoSrcObject 0 :: [])
    by (vm_compute; reflexivity).
  split; [exact H|].
  exact (proj1 (no_attachment_before_remote_description env_ok
                  (rendered_widget "camera.a") _ 0 [] H)).
Defined.

Lemma offer_payload_witness :
  let r := _startWebRtc env_ok (rendered_widget "camera.a") in
  In (EvHandleWebRtcOffer "camera.a" offer_of_example) (events r) /\
  exists offer gathered rest,
    createOffer env_ok = Fulfilled offer /\
    icecandidate env_ok = (Some <$> gathered) ++ None :: rest /\
    offer_of_example = offer +:+ candidate_lines gathered /\
    "camera.a" = entityid (rendered_widget "camera.a").
Proof.
  intros r.
  assert (H : In (EvHandleWebRtcOffer "camera.a" offer_of_example)
                 (events (_startWebRtc env_ok (rendered_widget "camera.a"))))
    by pick_event.
  split; [exact H|].
  exact (offer_payload env_ok (rendered_widget "camera.a") "camera.a"
           offer_of_example H).
Defined.

Lemma empty_configuration_without_settings_witness :
  let w := rendered_widget "camera.a" in
  fetchWebRtcConfig env_no_configuration (entityid w) = Fulfilled None /\
  no_fallback_settings env_no_configuration /\
  exists p, pcs (final (_startWebRtc env_no_configuration w)) !! 0 = Some p /\
            configuration p = empty_configuration /\
            iceServers (configuration p) = None.
Proof.
  intros w.
  assert (H1 : fetchWebRtcConfig env_no_configuration (entityid w)
               = Fulfilled None) by reflexivity.
  assert (H2 : no_fallback_settings env_no_configuration)
    by (left; reflexivity).
  split; [exact H1|]. split; [exact H2|].
  exact (proj2 (empty_configuration_without_settings env_no_configuration w
                  None H1 eq_refl H2)).
Defined.

Lemma two_way_audio_starts_muted_witness :
  let w := rendered_widget "camera.a" in
  let r := _startWebRtc env_ok w in
  getUserMedia env_ok = Fulfilled [audio_track] /\
  kind audio_track = "audio" /\
  exists p, pcs (final r) !! 0 = Some p /\
    transceivers p =
      [ {| seed := OfTrack 0; direction := sendrecv |};
        {| seed := OfKind "video"; direction := recvonly |} ] /\
    _localReturnAudioTrack (final r) = Some 0 /\
    List.filter (is_audio (final r)) (transceivers p)
    = [ {| seed := OfTrack 0; direction := sendrecv |} ] /\
    enabled <$> tracks (final r) !! 0 = Some false /\
    mic_html (final r) =
      Some {| icon := mdiMicrophoneOff; label := "Turn on mic" |}.
Proof.
  intros w r.
  split; [reflexivity|]. split; [reflexivity|].
  apply (two_way_audio_starts_muted env_ok w two_way_config audio_track []);
    try reflexivity.
  intros _. left. reflexivity.
Defined.

Lemma restart_without_teardown_witness :
  let r := updated env_ok ["entityid"] retargeted_widget in
  has ["entityid"] "entityid" = true /\
  _videoEl retargeted_widget = Some {| srcObject := Some 0; srcAttr := None |} /\
  (forall e, In e (events r) -> teardown_event e = true ->
             e = EvClosePeerConnection 1) /\
  pcs retargeted_widget `prefix_of` pcs (final r).
Proof.
  intros r.
  assert (H1 : has ["entityid"] "entityid" = true) by reflexivity.
  assert (H2 : _videoEl retargeted_widget
               = Some {| srcObject := Some 0; srcAttr := None |})
    by (vm_compute; reflexivity).
  destruct (restart_without_teardown env_ok ["entityid"] retargeted_widget _
              H1 H2) as (_ & _ & Hquiet & Hpcs & _).
  split; [exact H1|]. split; [exact H2|]. split; [exact Hquiet|exact Hpcs].
Defined.

(** C6, as stated, fails: the widget streams camera.a, the identifier
    becomes camera.b, and [updated] negotiates for camera.b with the peer
    connection of camera.a still open, its local track not stopped, and
    nothing torn down before the configuration fetch. *)
Lemma session_survives_identifier_change :
  let r := updated env_ok ["entityid"] retargeted_widget in
  ~ torn_down_before_restart env_ok ["entityid"] retargeted_widget /\
  _peerConnection retargeted_widget = Some 0 /\
  closed <$> pcs (final r) !! 0 = Some false /\
  stopped <$> tracks (final r) !! 0 = Some false /\
  _peerConnection (final r) = Some 1.
Proof.
  intros r. split; [|vm_compute; repeat split; reflexivity].
  intros H. destruct (H 0 eq_refl) as (before & rest & Heq & Hin).
  assert (Hall : In (EvClosePeerConnection 0)
                    (events (updated env_ok ["entityid"] retargeted_widget))).
  { rewrite Heq. apply in_or_app. by left. }
  vm_compute in Hall. intuition discriminate.
Qed.

(** C7, as stated, fails: with a peer connection recorded and a backend
    that rejects the release request, the promise of [_cleanUp] rejects. *)
Lemma release_rejection_reaches_caller :
  ~ cleanup_never_throws env_release_refused streaming_widget /\
  result (_cleanUp env_release_refused streaming_widget)
  = Throw {| message := Some "Unknown error" |}.
Proof. split; [|reflexivity]. unfold cleanup_never_throws. vm_compute. discriminate. Qed.

(** C10, as stated, fails: the widget streams camera.a, the identifier
    becomes camera.b and the backend rejects the offer for camera.b; the
    teardown that follows closes the peer connection of camera.a and sends
    a release request. *)
Lemma teardown_after_abort_releases_previous_session :
  let r := _startWebRtc env_signal_refused retargeted_widget in
  ~ silent_after_abort env_signal_refused env_ok retargeted_widget /\
  _error (final r) = Some "Failed to start WebRTC stream: Camera is offline" /\
  In (EvClosePeerConnection 0) (events (_cleanUp env_ok (final r))) /\
  In (EvCloseWebRtcStream "camera.b") (events (_cleanUp env_ok (final r))).
Proof.
  intros r. split; [|split; [reflexivity|split; pick_event]].
  intros H.
  assert (Herr : _error (final (_startWebRtc env_signal_refused
                                  retargeted_widget)) <> None)
    by (vm_compute; discriminate).
  assert (Hin : In (EvCloseWebRtcStream "camera.b")
                   (events (_cleanUp env_ok
                      (final (_startWebRtc env_signal_refused
                                retargeted_widget)))))
    by pick_event.
  destruct (H Herr _ Hin) as [_ Hno]. by apply (Hno "camera.b").
Qed.

(** The first negotiation is refused by the backend, the second by the
    browser, and both are under way at once; the widget is then taken out
    of the page. *)
Lemma release_follows_recording_witness :
  let acts := overlapping env_signal_refused env_answer_refused ++
              [Disconnected env_ok] in
  let x' := exec acts fresh_page in
  _peerConnection (widget fresh_page) = None /\
  suspended fresh_page = [] /\
  Forall keeps_recorded acts /\
  _peerConnection (widget x') = None /\
  no_release (trace x') = true.
Proof.
  intros acts x'.
  assert (H1 : _peerConnection (widget fresh_page) = None) by reflexivity.
  assert (H2 : suspended fresh_page = []) by reflexivity.
  assert (H3 : Forall keeps_recorded acts) by (repeat constructor).
  destruct (release_follows_recording acts fresh_page env_ok env_ok
              (rendered_widget "camera.a") H1 H2 H3) as (_ & _ & _ & H).
  destruct H as (Hnone & _ & _ & Htrace).
  { intros started Hin. apply refused_cannot_succeed.
    cbn in Hin. destruct Hin as [<-|[<-|[]]].
    - left. intros. by eexists.
    - right. by eexists. }
  split; [exact H1|]. split; [exact H2|]. split; [exact H3|].
  split; [exact Hnone|]. apply Htrace. reflexivity.
Defined.

(** A negotiation stopped at a failure point need not leave a teardown
    with nothing to release.  Two negotiations are started one after the
    other on a fresh widget.  The second gets through and records its peer
    connection; then the first is refused by the backend and shows its
    error.  The teardown that follows closes the peer connection of the
    second negotiation and asks the backend to release the stream. *)
Lemma overlapping_run_is_released :
  let x := exec (overlapping env_signal_refused env_ok) fresh_page in
  let c := _cleanUp env_ok (widget x) in
  suspended x = [] /\
  _error (widget x) = Some "Failed to start WebRTC stream: Camera is offline" /\
  _peerConnection (widget x) = Some 0 /\
  In (EvClosePeerConnection 0) (events c) /\
  In (EvCloseWebRtcStream "camera.a") (events c).
Proof.
  intros x c. split; [reflexivity|]. split; [reflexivity|].
  split; [reflexivity|]. split; pick_event.
Qed.

Lemma backend_configuration_takes_precedence_witness :
  let w := rendered_widget "camera.a" in
  let cfg := Some {| rtc_configuration := Some turn_configuration;
                     create_data_channel := Some true;
                     audio_direction := None |} in
  fetchWebRtcConfig env_configured (entityid w) = Fulfilled cfg /\
  cfg ≫= rtc_configuration = Some turn_configuration /\
  ~ In EvFetchWebRtcSettings (events (_startWebRtc env_configured w)).
Proof.
  intros w cfg.
  assert (H1 : fetchWebRtcConfig env_configured (entityid w) = Fulfilled cfg)
    by reflexivity.
  assert (H2 : cfg ≫= rtc_configuration = Some turn_configuration)
    by reflexivity.
  destruct (backend_configuration_takes_precedence env_configured w cfg
              turn_configuration H1 H2) as (_ & H & _).
  split; [exact H1|]. split; [exact H2|exact H].
Defined.

Lemma stun_server_configuration_witness :
  let w := rendered_widget "camera.a" in
  let st := {| stun_server := Some "stun.example.org:3478" |} in
  fetchWebRtcConfig env_stun (entityid w) = Fulfilled None /\
  None ≫= rtc_configuration = None /\
  isComponentLoaded env_stun "rtsp_to_webrtc" = true /\
  fetchWebRtcSettings env_stun = Fulfilled (Some st) /\
  stun_server st = Some "stun.example.org:3478" /\
  truthy "stun.example.org:3478" = true /\
  In (EvNewPeerConnection 0
        {| iceServers :=
             Some [ {| urls := ["stun:" +:+ "stun.example.org:3478"] |} ] |})
     (events (_startWebRtc env_stun w)).
Proof.
  intros w st.
  assert (H1 : fetchWebRtcConfig env_stun (entityid w) = Fulfilled None)
    by reflexivity.
  assert (H2 : None ≫= rtc_configuration = None) by reflexivity.
  assert (H3 : isComponentLoaded env_stun "rtsp_to_webrtc" = true)
    by reflexivity.
  assert (H4 : fetchWebRtcSettings env_stun = Fulfilled (Some st))
    by reflexivity.
  assert (H5 : stun_server st = Some "stun.example.org:3478") by reflexivity.
  assert (H6 : truthy "stun.example.org:3478" = true) by reflexivity.
  destruct (stun_server_configuration env_stun w None st
              "stun.example.org:3478" H1 H2 H3 H4 H5 H6) as (_ & H & _).
  repeat (split; [assumption|]). exact H.
Defined.

Lemma configuration_failure_is_not_reported_witness :
  let w := rendered_widget "camera.a" in
  let r := _startWebRtc env_unreachable w in
  (fetchWebRtcConfig env_unreachable (entityid w)
   = Rejected (Some "Connection lost") \/
   exists cfg, fetchWebRtcConfig env_unreachable (entityid w) = Fulfilled cfg /\
     cfg ≫= rtc_configuration = None /\
     isComponentLoaded env_unreachable "rtsp_to_webrtc" = true /\
     fetchWebRtcSettings env_unreachable = Rejected (Some "Connection lost")) /\
  result r = Throw {| message := Some "Connection lost" |} /\
  _error (final r) = None.
Proof.
  intros w r.
  assert (H1 : fetchWebRtcConfig env_unreachable (entityid w)
               = Rejected (Some "Connection lost") \/
               exists cfg,
                 fetchWebRtcConfig env_unreachable (entityid w)
                 = Fulfilled cfg /\
                 cfg ≫= rtc_configuration = None /\
                 isComponentLoaded env_unreachable "rtsp_to_webrtc" = true /\
                 fetchWebRtcSettings env_unreachable
                 = Rejected (Some "Connection lost"))
    by (left; reflexivity).
  destruct (configuration_failure_is_not_reported env_unreachable w
              (Some "Connection lost") H1) as (Hr & _ & _ & _ & He & _).
  split; [exact H1|]. split; [exact Hr|exact He].
Defined.

Lemma microphone_requested_only_for_two_way_witness :
  let w := rendered_widget "camera.a" in
  In (EvGetMedia "user" false true) (events (_startWebRtc env_ok w)) /\
  exists cfg, fetchWebRtcConfig env_ok (entityid w) = Fulfilled (Some cfg) /\
    audio_direction cfg = Some "sendrecv".
Proof.
  intros w.
  assert (H1 : In (EvGetMedia "user" false true)
                  (events (_startWebRtc env_ok w))) by pick_event.
  destruct (microphone_requested_only_for_two_way env_ok w "user" false true
              H1) as (cfg & Hc & Hd & _).
  split; [exact H1|]. exists cfg. split; [exact Hc|exact Hd].
Defined.

Lemma data_channel_only_on_request_witness :
  let w := rendered_widget "camera.a" in
  let cfg := Some {| rtc_configuration := Some turn_configuration;
                     create_data_channel := Some true;
                     audio_direction := None |} in
  let conn := default (new_RTCPeerConnection empty_configuration)
                (pcs (final (_startWebRtc env_configured w)) !! 0) in
  fetchWebRtcConfig env_configured (entityid w) = Fulfilled cfg /\
  pcs (final (_startWebRtc env_configured w)) !! length (pcs w) = Some conn /\
  dataChannels conn = ["dataSendChannel"].
Proof.
  intros w cfg conn.
  assert (H1 : fetchWebRtcConfig env_configured (entityid w) = Fulfilled cfg)
    by reflexivity.
  assert (H2 : pcs (final (_startWebRtc env_configured w)) !! length (pcs w)
               = Some conn) by (vm_compute; reflexivity).
  split; [exact H1|]. split; [exact H2|].
  exact (data_channel_only_on_request env_configured w cfg conn H1 H2).
Defined.

Lemma offer_made_for_audio_and_video_witness :
  let w := rendered_widget "camera.a" in
  In (EvCreateOffer 0) (events (_startWebRtc env_ok w)) /\
  0 = length (pcs w).
Proof.
  intros w.
  assert (H1 : In (EvCreateOffer 0) (events (_startWebRtc env_ok w)))
    by pick_event.
  destruct (offer_made_for_audio_and_video env_ok w 0 H1) as (H & _).
  split; [exact H1|exact H].
Defined.

Lemma receive_only_session_witness :
  let w := rendered_widget "camera.a" in
  let cfg := Some {| rtc_configuration := Some turn_configuration;
                     create_data_channel := Some true;
                     audio_direction := None |} in
  let r := _startWebRtc env_configured w in
  fetchWebRtcConfig env_configured (entityid w) = Fulfilled cfg /\
  is_sendrecv (cfg ≫= audio_direction) && mediaDevices env_configured = false /\
  (cfg ≫= rtc_configuration = None -> settings_fetch_settles env_configured) /\
  mic_html (final r) = None /\
  forall media v a, ~ In (EvGetMedia media v a) (events r).
Proof.
  intros w cfg r.
  assert (H1 : fetchWebRtcConfig env_configured (entityid w) = Fulfilled cfg)
    by reflexivity.
  assert (H2 : is_sendrecv (cfg ≫= audio_direction) &&
               mediaDevices env_configured = false) by reflexivity.
  assert (H3 : cfg ≫= rtc_configuration = None ->
               settings_fetch_settles env_configured)
    by (intros _; left; reflexivity).
  destruct (receive_only_session env_configured w cfg H1 H2 H3)
    as (_ & _ & Hmic & Hmedia).
  split; [exact H1|]. split; [exact H2|]. split; [exact H3|].
  split; [exact (Hmic eq_refl)|exact Hmedia].
Defined.

Lemma gathering_without_end_stalls_witness :
  let w := rendered_widget "camera.a" in
  let r := _startWebRtc env_gathering_stalls w in
  ~ In None (icecandidate env_gathering_stalls) /\
  result r <> Val tt /\
  forall entity payload, ~ In (EvHandleWebRtcOffer entity payload) (events r).
Proof.
  intros w r.
  assert (H1 : ~ In None (icecandidate env_gathering_stalls)).
  { cbn. intros [H|H]; [discriminate H|exact H]. }
  destruct (gathering_without_end_stalls env_gathering_stalls w H1)
    as (Hr & Hs & _).
  split; [exact H1|]. split; [exact Hr|exact Hs].
Defined.

Lemma applied_answer_attaches_every_track_witness :
  let w := rendered_widget "camera.a" in
  let r := _startWebRtc env_ok w in
  In (EvRemoteDescriptionApplied 0) (events r) /\
  exists incoming first,
    setRemoteDescription env_ok = Fulfilled incoming /\
    streams (final r) !! 0 = Some (seq first (length incoming)).
Proof.
  intros w r.
  assert (H1 : In (EvRemoteDescriptionApplied 0)
                  (events (_startWebRtc env_ok w))) by pick_event.
  destruct (applied_answer_attaches_every_track env_ok w 0 H1)
    as (incoming & first & Hi & _ & _ & _ & _ & _ & Hs & _).
  split; [exact H1|]. exists incoming, first. split; [exact Hi|exact Hs].
Defined.

Lemma teardown_stops_session_tracks_witness :
  let tr := {| kind := "video"; enabled := true; stopped := false |} in
  tracks streaming_widget !! 1 = Some tr /\
  tracks (final (_cleanUp env_ok streaming_widget)) !! 1
  = Some (if existsb (Nat.eqb 1) (stopped_by_teardown streaming_widget)
          then track_stop tr else tr).
Proof.
  intros tr.
  assert (H1 : tracks streaming_widget !! 1 = Some tr)
    by (vm_compute; reflexivity).
  destruct (teardown_stops_session_tracks env_ok streaming_widget 1 tr H1)
    as (H & _).
  split; [exact H1|exact H].
Defined.

Lemma release_closes_then_notifies_witness :
  let conn := default (new_RTCPeerConnection empty_configuration)
                (pcs streaming_widget !! 0) in
  let r := _cleanUp env_ok streaming_widget in
  _peerConnection streaming_widget = Some 0 /\
  pcs streaming_widget !! 0 = Some conn /\
  pcs (final r) !! 0 = Some (pc_close conn) /\
  _peerConnection (final r) = None.
Proof.
  intros conn r.
  assert (H1 : _peerConnection streaming_widget = Some 0)
    by (vm_compute; reflexivity).
  assert (H2 : pcs streaming_widget !! 0 = Some conn)
    by (vm_compute; reflexivity).
  destruct (release_closes_then_notifies env_ok streaming_widget 0 conn H1 H2)
    as (_ & Hc & Hn).
  split; [exact H1|]. split; [exact H2|]. split; [exact Hc|exact Hn].
Defined.


Lemma alert_blocks_restart_witness :
  let w := final (_startWebRtc env_signal_refused (rendered_widget "camera.a")) in
  truthy_opt (_error w) = true /\
  _videoEl (rendered w) = None /\
  updated env_ok ["entityid"] (rendered w) = ret tt (rendered w).
Proof.
  intros w.
  assert (H1 : truthy_opt (_error w) = true) by (vm_compute; reflexivity).
  destruct (alert_blocks_restart env_ok ["entityid"] w H1) as (Hv & _ & Hu).
  split; [exact H1|]. split; [exact Hv|exact Hu].
Defined.

Lemma toggleMic_twice_witness :
  _localReturnAudioTrack streaming_widget = Some 0 /\
  final (toggleMic (final (toggleMic streaming_widget))) = streaming_widget.
Proof.
  assert (H1 : _localReturnAudioTrack streaming_widget = Some 0)
    by (vm_compute; reflexivity).
  split; [exact H1|].
  exact (toggleMic_twice streaming_widget 0 H1).
Defined.
